(** * eth-jsonrpc-server: value codec, log filters, eth endpoint, dispatcher

    A shallow embedding of the Go sources (net_endpoint.go, types.go,
    eth_endpoint.go, the dispatcher) and the properties the specification
    states about them. *)

From Stdlib Require Import ZArith NArith String Ascii List Lia Bool DecimalString.
From stdpp Require Import base option list gmap strings.

Set Default Proof Using "Type".
Set Warnings "-register-all".

(** ** Go results

    A Go function returning [(T, error)] either returns a value with a nil
    error, returns a non-nil error (modelled by its message), or panics
    (index out of range, nil dereference). *)

Inductive result (A : Type) : Type :=
| Ok (a : A)
| Err (e : string)
| Panic.

Arguments Ok {A} a.
Arguments Err {A} e.
Arguments Panic {A}.

Definition rbind {A B : Type} (r : result A) (k : A -> result B) : result B :=
  match r with
  | Ok a => k a
  | Err e => Err e
  | Panic => Panic
  end.

Notation "x <-? r ; k" := (rbind r (fun x => k))
  (at level 100, r at next level, right associativity).

(** ** Primitive domain types (ethgo)

    [ethgo.Address] is [[20]byte] and [ethgo.Hash] is [[32]byte]; Go compares
    arrays by value, so each is modelled by the big-endian number it holds. *)

Definition Address : Type := N.
Definition Hash : Type := N.

(** [BlockNumber] is [int64]; the three tags are reserved negative values. *)
Definition BlockNumber : Type := Z.

Definition PendingBlockNumber : BlockNumber := (-3)%Z.
Definition LatestBlockNumber : BlockNumber := (-2)%Z.
Definition EarliestBlockNumber : BlockNumber := (-1)%Z.

(** [uint64(x)] for an [int64] x, and [int64(n)] / [BlockNumber(n)] for a
    [uint64] n: two's complement reinterpretation. *)
Definition uint64_of_int64 (x : Z) : N := Z.to_N (x mod 2 ^ 64)%Z.

Definition int64_of_uint64 (n : N) : Z :=
  if (n <? 2 ^ 63)%N then Z.of_N n else (Z.of_N n - 2 ^ 64)%Z.

(** The fields of [ethgo.Log] the server reads. *)
Record Log : Type := mkLog {
  Log_Address : Address;
  Log_Topics : list Hash
}.

Record Receipt : Type := mkReceipt {
  Logs : list Log
}.

(** ** LogFilter (net_endpoint.go) *)

Record LogFilter : Type := mkLogFilter {
  BlockHash : option Hash;
  fromBlock : BlockNumber;
  toBlock : BlockNumber;
  Addresses : list Address;
  Topics : list (list Hash)
}.

(** The address loop of [Match]: it scans every address (no break). *)
Definition matchAddresses (addrs : list Address) (a : Address) : bool :=
  fold_left (fun m addr => if decide (addr = a) then true else m) addrs false.

(** The inner loop of [Match] over one slot [sub] at index [i]; [log.Topics[i]]
    panics when [i] is out of range. *)
Fixpoint matchSlot (logTopics : list Hash) (i : nat) (sub : list Hash)
    (m : bool) : result bool :=
  match sub with
  | [] => Ok m
  | topic :: rest =>
      match logTopics !! i with
      | None => Panic
      | Some t =>
          if decide (t = topic) then Ok true
          else matchSlot logTopics i rest m
      end
  end.

(** The outer loop of [Match] over the slots, starting at index [i]. *)
Fixpoint matchTopics (logTopics : list Hash) (i : nat)
    (subs : list (list Hash)) : result bool :=
  match subs with
  | [] => Ok true
  | sub :: rest =>
      m <-? matchSlot logTopics i sub (bool_decide (length sub = 0));
      if m then matchTopics logTopics (S i) rest else Ok false
  end.

Definition Match (l : LogFilter) (log : Log) : result bool :=
  if bool_decide (0 < length (Addresses l))
     && negb (matchAddresses (Addresses l) (Log_Address log))
  then Ok false
  else if bool_decide (length (Log_Topics log) < length (Topics l))
  then Ok false
  else matchTopics (Log_Topics log) 0 (Topics l).

(** What the specification says a match is. *)
Definition MatchSpec (l : LogFilter) (log : Log) : Prop :=
  (Addresses l = [] \/ Log_Address log ∈ Addresses l)
  /\ length (Topics l) <= length (Log_Topics log)
  /\ forall (i : nat) (sub : list Hash),
       Topics l !! i = Some sub ->
       sub = [] \/ exists t, Log_Topics log !! i = Some t /\ t ∈ sub.

(** ** Go library functions the codec calls

    Go strings and text held in [[]byte] are byte sequences: both are modelled
    by [string] (a list of 8-bit [ascii]), so [string(b)] and [[]byte(s)] are
    the identity. Binary data ([argBytes], big-endian integers) is a
    [list byte]. Library errors are modelled by a short message. *)

Definition byte : Type := Byte.byte.

(** Conversion [uint8(n)]: keeps the low eight bits. *)
Definition byte_of_N (n : N) : byte := byte_of_ascii (ascii_of_N n).
Definition N_of_byte (b : byte) : N := Byte.to_N b.

(** [strings.HasPrefix] and [strings.TrimPrefix]. *)
Fixpoint stripPrefix (prefix s : string) : option string :=
  match prefix, s with
  | EmptyString, _ => Some s
  | String p ps, String c cs =>
      if Ascii.eqb p c then stripPrefix ps cs else None
  | String _ _, EmptyString => None
  end.

Definition HasPrefix (s prefix : string) : bool :=
  match stripPrefix prefix s with Some _ => true | None => false end.

Definition TrimPrefix (s prefix : string) : string :=
  match stripPrefix prefix s with Some rest => rest | None => s end.

(** [strings.Trim(s, cutset)] for a cutset of one character [c]. *)
Fixpoint trimLeft (c : ascii) (s : string) : string :=
  match s with
  | String x rest => if Ascii.eqb x c then trimLeft c rest else s
  | EmptyString => EmptyString
  end.

Fixpoint trimRight (c : ascii) (s : string) : string :=
  match s with
  | EmptyString => EmptyString
  | String x rest =>
      match trimRight c rest with
      | EmptyString => if Ascii.eqb x c then EmptyString else String x EmptyString
      | rest' => String x rest'
      end
  end.

Definition Trim (s : string) (c : ascii) : string := trimRight c (trimLeft c s).

(** The digit table shared by [strconv], [encoding/hex] and [math/big]. *)
Definition hextable : string := "0123456789abcdef".

Definition hexdigit (d : N) : ascii :=
  match String.get (N.to_nat d) hextable with
  | Some c => c
  | None => "0"%char
  end.

(** [strconv.ParseUint]: the value of one character as a digit, for letters
    through [lower(c)]; [None] is the syntax-error default of the switch. *)
Definition digitVal (c : ascii) : option N :=
  let n := N_of_ascii c in
  let lower := N.lor n 32 in
  if (48 <=? n)%N && (n <=? 57)%N then Some (n - 48)%N
  else if (97 <=? lower)%N && (lower <=? 122)%N then Some (lower - 97 + 10)%N
  else None.

Definition maxUint64 : N := (2 ^ 64 - 1)%N.

Definition errSyntax : string := "invalid syntax".
Definition errRange : string := "value out of range".

(** The digit loop of [strconv.ParseUint(s, base, 64)], with its two overflow
    tests on the wrapped 64-bit accumulator. *)
Fixpoint ParseUint_loop (base : N) (s : string) (n : N) : result N :=
  match s with
  | EmptyString => Ok n
  | String c rest =>
      match digitVal c with
      | None => Err errSyntax
      | Some d =>
          if (base <=? d)%N then Err errSyntax
          else if (maxUint64 / base + 1 <=? n)%N then Err errRange
          else
            let n' := (n * base)%N in
            let n1 := ((n' + d) mod 2 ^ 64)%N in
            if (n1 <? n')%N || (maxUint64 <? n1)%N then Err errRange
            else ParseUint_loop base rest n1
      end
  end.

Definition ParseUint (s : string) (base : N) : result N :=
  match s with
  | EmptyString => Err errSyntax
  | _ => ParseUint_loop base s 0%N
  end.

(** Lower-case hexadecimal text of an unsigned number without leading zeros
    ([strconv.AppendUint(_, u, 16)], and [big.Int.Text(16)] of a magnitude):
    low digits are produced while [u >= 16], then the leading digit. The loop
    runs at most once per four bits of [u]. *)
Fixpoint formatBits (fuel : nat) (u : N) (acc : string) : string :=
  match fuel with
  | O => String (hexdigit u) acc
  | S fuel' =>
      if (16 <=? u)%N
      then formatBits fuel' (u / 16)%N (String (hexdigit (u mod 16)%N) acc)
      else String (hexdigit u) acc
  end.

Definition formatHex (u : N) : string :=
  formatBits (N.to_nat (N.size u)) u EmptyString.

(** [big.Int.Text(16)]: a minus sign before the magnitude of a negative. *)
Definition bigText16 (x : Z) : string :=
  if (x <? 0)%Z then String "-"%char (formatHex (Z.abs_N x))
  else formatHex (Z.abs_N x).

(** [big.Int.SetBytes]: the big-endian unsigned value of a byte slice. *)
Definition SetBytes (buf : list byte) : Z :=
  Z.of_N (fold_left (fun acc b => (acc * 256 + N_of_byte b)%N) buf 0%N).

(** [encoding/hex]: [fromHexChar] accepts both letter cases. *)
Definition fromHexChar (c : ascii) : option N :=
  let n := N_of_ascii c in
  if (48 <=? n)%N && (n <=? 57)%N then Some (n - 48)%N
  else if (97 <=? n)%N && (n <=? 102)%N then Some (n - 97 + 10)%N
  else if (65 <=? n)%N && (n <=? 70)%N then Some (n - 65 + 10)%N
  else None.

Definition errInvalidByte : string := "encoding/hex: invalid byte".
Definition errLength : string := "encoding/hex: odd length hex string".

(** [hex.DecodeString]: the bytes decoded so far and the error, if any. *)
Fixpoint DecodeString (s : string) : list byte * option string :=
  match s with
  | EmptyString => ([], None)
  | String p EmptyString =>
      match fromHexChar p with
      | None => ([], Some errInvalidByte)
      | Some _ => ([], Some errLength)
      end
  | String p (String q rest) =>
      match fromHexChar p, fromHexChar q with
      | Some a, Some b =>
          let '(bs, err) := DecodeString rest in
          (byte_of_N (N.lor (N.shiftl a 4) b) :: bs, err)
      | _, _ => ([], Some errInvalidByte)
      end
  end.

(** [hex.EncodeToString]: two digits per byte. *)
Fixpoint EncodeToString (b : list byte) : string :=
  match b with
  | [] => EmptyString
  | v :: rest =>
      String (hexdigit (N.shiftr (N_of_byte v) 4))
        (String (hexdigit (N.land (N_of_byte v) 15)) (EncodeToString rest))
  end.

(** ** The hex scalars (types.go) *)

Definition argBig : Type := Z.
Definition argUint64 : Type := N.
Definition argBytes : Type := list byte.

Definition decodeToHex (b : string) : list byte * option string :=
  let str := TrimPrefix b "0x" in
  let str := if Nat.eqb (String.length str mod 2) 0 then str
             else String "0"%char str in
  DecodeString str.

Definition encodeToHex (b : list byte) : string :=
  let str := EncodeToString b in
  let str := if Nat.eqb (String.length str mod 2) 0 then str
             else String "0"%char str in
  String.append "0x" str.

(** [UnmarshalText] and [UnmarshalJSON] have a pointer receiver: the model
    takes the value the receiver holds before the call and returns [Ok] of the
    value it holds after a call that returned a nil error, or the error the
    call returned (the receiver is then left as it was). *)
Definition argBig_UnmarshalText (a : argBig) (input : string) : result argBig :=
  match decodeToHex input with
  | (_, Some err) => Err err
  | (buf, None) => Ok (SetBytes buf)
  end.

Definition argBig_MarshalText (a : argBig) : result string :=
  Ok (String.append "0x" (bigText16 a)).

Definition argUint64_MarshalText (b : argUint64) : result string :=
  Ok (String.append "0x" (formatHex b)).

Definition argUint64_UnmarshalText (u : argUint64) (input : string)
    : result argUint64 :=
  let str := TrimPrefix input "0x" in
  num <-? ParseUint str 16;
  Ok num.

Definition argBytes_MarshalText (b : argBytes) : result string :=
  Ok (encodeToHex b).

(** On a decode error this method returns [nil], not the error: the receiver
    keeps its value and the caller sees success. *)
Definition argBytes_UnmarshalText (b : argBytes) (input : string)
    : result argBytes :=
  match decodeToHex input with
  | (_, Some err) => Ok b
  | (hh, None) => Ok hh
  end.

(** ** BlockNumber parsing (net_endpoint.go) *)

Definition dquote : ascii := "034"%char.

(** The slice expression [str[n:]]. *)
Fixpoint strFrom (n : nat) (str : string) : string :=
  match n, str with
  | S n', String _ rest => strFrom n' rest
  | _, _ => str
  end.

Definition parseUint64orHex (val : option string) : result N :=
  match val with
  | None => Ok 0%N
  | Some str =>
      if HasPrefix str "0x"
      then ParseUint (strFrom 2 str) 16
      else ParseUint str 10
  end.

Definition stringToBlockNumber (str : string) : result BlockNumber :=
  if String.eqb str "" then Err "value is empty"
  else
    let str := Trim str dquote in
    if String.eqb str "pending" then Ok PendingBlockNumber
    else if String.eqb str "latest" then Ok LatestBlockNumber
    else if String.eqb str "earliest" then Ok EarliestBlockNumber
    else
      n <-? parseUint64orHex (Some str);
      Ok (int64_of_uint64 n).

Definition BlockNumber_UnmarshalJSON (b : BlockNumber) (buffer : string)
    : result BlockNumber :=
  num <-? stringToBlockNumber buffer;
  Ok num.

(** The unbounded value of a string of hexadecimal digits, read after [n]. *)
Fixpoint hexValue (s : string) (n : N) : option N :=
  match s with
  | EmptyString => Some n
  | String c rest =>
      match fromHexChar c with
      | Some d => hexValue rest (n * 16 + d)%N
      | None => None
      end
  end.

(** The raw JSON text of a string literal without escapes. *)
Definition quote (s : string) : string :=
  String dquote (String.append s (String dquote EmptyString)).

(** ** The chain backend (blockchain.go) and the eth endpoint (eth_endpoint.go) *)

(** The fields of [ethgo.Block] the endpoint reads. *)
Record Block : Type := mkBlock {
  Block_Number : N;
  Block_Hash : Hash;
  Block_StateRoot : Hash
}.

(** [Account]; [Balance] is a [*big.Int] and may be nil. *)
Record Account : Type := mkAccount {
  Account_Nonce : N;
  Account_Balance : option Z;
  Account_Root : Hash;
  Account_CodeHash : list byte
}.

Record GetLogsInput : Type := mkGetLogsInput {
  Input_From : N;
  Input_To : N;
  Input_Addresses : list Address;
  Input_Topics : list (list Hash)
}.

(** The fields of [ethgo.Transaction] that [decodeTxn] fills. *)
Record Transaction : Type := mkTransaction {
  Txn_From : Address;
  Txn_To : option Address;
  Txn_Gas : N;
  Txn_Value : Z;
  Txn_Input : list byte;
  Txn_Nonce : N;
  Txn_Hash : Hash
}.

(** [txnArgs] (types.go): every field is a pointer, [None] when nil. *)
Record txnArgs : Type := mkTxnArgs {
  From : option Address;
  To : option Address;
  Gas : option argUint64;
  GasPrice : option argBytes;
  Value : option argBytes;
  Input : option argBytes;
  Data : option argBytes;
  Nonce : option argUint64
}.

(** The backend methods the endpoint calls, with the signatures it calls them
    with. A [(ptr, bool)] result is a pair, a [(value, error)] result a
    [result], and a pointer that may be nil an [option]. [GetAccount] returns
    the account pointer and the error side by side because the callers test
    both. *)
Record EthBackend : Type := mkEthBackend {
  Backend_Header : option Block;
  Backend_GetReceiptsByHash : Hash -> result (list Receipt);
  Backend_GetHeaderByNumber : N -> option Block * bool;
  Backend_GetNonce : Address -> N * bool;
  Backend_GetAccount : Hash -> Address -> option Account * option string;
  Backend_GetStorage : Hash -> Address -> Hash -> result (list byte);
  Backend_GetCode : Hash -> result (list byte);
  Backend_GetAvgGasPrice : option Z;
  Backend_GetLogs : GetLogsInput -> result (list Log);
  Backend_Call : Transaction -> option Block -> result (list byte);
  Backend_EstimateGas : Transaction -> option Block -> result N
}.

(** Dereferencing a pointer: a nil pointer panics. *)
Definition deref {A : Type} (p : option A) : result A :=
  match p with
  | Some a => Ok a
  | None => Panic
  end.

(** [fmt.Sprintf("%d", n)] for an unsigned number. *)
Definition decimal (n : N) : string := NilEmpty.string_of_uint (N.to_uint n).

(** [big.Int.Bytes]: the big-endian bytes of the magnitude, none for zero. *)
Fixpoint bytesBE (fuel : nat) (u : N) (acc : list byte) : list byte :=
  match fuel with
  | O => acc
  | S fuel' =>
      if (u =? 0)%N then acc
      else bytesBE fuel' (u / 256)%N (byte_of_N (u mod 256)%N :: acc)
  end.

Definition bigBytes (x : Z) : list byte :=
  bytesBE (N.to_nat (N.size (Z.abs_N x))) (Z.abs_N x) [].

(** [ethgo.BytesToHash]: the last 32 bytes, right-aligned. *)
Definition BytesToHash (b : list byte) : Hash :=
  (Z.to_N (SetBytes b) mod 2 ^ 256)%N.

Definition errEarliest : string := "fetching the earliest header is not supported".
Definition errPending : string := "fetching the pending header is not supported".

Definition errFetchHeader (n : N) : string :=
  String.append "Error fetching block number "
    (String.append (decimal n) " header").

Section Eth.

(** [ethgo.Transaction.GetHash], a library function of the transaction
    without its hash. *)
Variable GetHash : Transaction -> result Hash.

Variable b : EthBackend.

Definition getBlockHeaderImpl (number : BlockNumber) : result (option Block) :=
  if decide (number = LatestBlockNumber) then Ok (Backend_Header b)
  else if decide (number = EarliestBlockNumber) then Err errEarliest
  else if decide (number = PendingBlockNumber) then Err errPending
  else
    let '(header, ok) := Backend_GetHeaderByNumber b (uint64_of_int64 number) in
    if negb ok then Err (errFetchHeader (uint64_of_int64 number))
    else Ok header.

Definition GetBlockByNumber (number : BlockNumber) (full : bool)
    : result (option Block) :=
  header <-? getBlockHeaderImpl number;
  Ok header.

Definition GetStorageAt (address : Address) (index : Hash)
    (number : BlockNumber) : result argBytes :=
  header <-? getBlockHeaderImpl number;
  h <-? deref header;
  res <-? Backend_GetStorage b (Block_StateRoot h) address index;
  Ok res.

(** [GetBalance]: a nil account with a nil error is a nil result. *)
Definition GetBalance (address : Address) (number : BlockNumber)
    : result (option argBig) :=
  header <-? getBlockHeaderImpl number;
  h <-? deref header;
  match Backend_GetAccount b (Block_StateRoot h) address with
  | (_, Some err) => Err err
  | (None, None) => Ok None
  | (Some acc, None) =>
      bal <-? deref (Account_Balance acc);
      Ok (Some bal)
  end.

(** [GetCode]: a nil account with a nil error is a nil (empty) result. *)
Definition GetCode (address : Address) (number : BlockNumber)
    : result argBytes :=
  header <-? getBlockHeaderImpl number;
  h <-? deref header;
  match Backend_GetAccount b (Block_StateRoot h) address with
  | (_, Some err) => Err err
  | (None, None) => Ok []
  | (Some acc, None) =>
      Backend_GetCode b (BytesToHash (Account_CodeHash acc))
  end.

Definition getNextNonce (address : Address) (number : BlockNumber) : result N :=
  let resolve (number : BlockNumber) : result N :=
    header <-? getBlockHeaderImpl number;
    h <-? deref header;
    match Backend_GetAccount b (Block_StateRoot h) address with
    | (_, Some err) => Err err
    | (acc, None) =>
        a <-? deref acc;
        Ok (Account_Nonce a)
    end in
  if decide (number = PendingBlockNumber) then
    let '(res, ok) := Backend_GetNonce b address in
    if ok then Ok res else resolve LatestBlockNumber
  else resolve number.

Definition GetTransactionCount (address : Address) (number : BlockNumber)
    : result argUint64 :=
  nonce <-? getNextNonce address number;
  Ok nonce.

(** [decodeTxn] writes defaults through the [arg] pointer as it goes: the
    model returns the record as the call leaves it, on every path, next to
    the result. [input] is a local slice, [None] while it is nil. A byte
    string is a list here, which has no nil apart from the empty one: the
    slice behind a non-nil [Data] or [Input] pointer is read as non-nil,
    which it is whenever [argBytes.UnmarshalText] stored a decoded text (it
    allocates the slice, also for "0x"). A pointer to a nil slice, which that
    method leaves behind when the text is not hexadecimal, is not told apart
    from a pointer to an empty one: for it, and a nil [To], the code returns
    the error of the contract creation where the model goes on with an empty
    payload. *)
Definition decodeTxn (arg : txnArgs) : txnArgs * result Transaction :=
  match From arg with
  | None => (arg, Err "from is empty")
  | Some from =>
  if bool_decide (Data arg <> None) && bool_decide (Input arg <> None)
  then (arg, Err "both input and data cannot be set")
  else
  let step1 : result txnArgs :=
    match Nonce arg with
    | None =>
        nonce <-? getNextNonce from LatestBlockNumber;
        Ok (mkTxnArgs (From arg) (To arg) (Gas arg) (GasPrice arg) (Value arg)
              (Input arg) (Data arg) (Some nonce))
    | Some _ => Ok arg
    end in
  match step1 with
  | Err e => (arg, Err e)
  | Panic => (arg, Panic)
  | Ok arg1 =>
  let arg2 :=
    match Value arg1 with
    | None => mkTxnArgs (From arg1) (To arg1) (Gas arg1) (GasPrice arg1) (Some [])
                (Input arg1) (Data arg1) (Nonce arg1)
    | Some _ => arg1
    end in
  let step3 : result txnArgs :=
    match GasPrice arg2 with
    | None =>
        price <-? deref (Backend_GetAvgGasPrice b);
        Ok (mkTxnArgs (From arg2) (To arg2) (Gas arg2) (Some (bigBytes price))
              (Value arg2) (Input arg2) (Data arg2) (Nonce arg2))
    | Some _ => Ok arg2
    end in
  match step3 with
  | Err e => (arg2, Err e)
  | Panic => (arg2, Panic)
  | Ok arg3 =>
  let input : option (list byte) :=
    match Data arg3 with
    | Some d => Some d
    | None => Input arg3
    end in
  if bool_decide (To arg3 = None) && bool_decide (input = None)
  then (arg3, Err "contract creation without data provided")
  else
  let input := match input with Some i => i | None => [] end in
  let arg4 :=
    match Gas arg3 with
    | None => mkTxnArgs (From arg3) (To arg3) (Some 1000000%N) (GasPrice arg3)
                (Value arg3) (Input arg3) (Data arg3) (Nonce arg3)
    | Some _ => arg3
    end in
  (arg4,
   gas <-? deref (Gas arg4);
   value <-? deref (Value arg4);
   nonce <-? deref (Nonce arg4);
   let txn := mkTransaction from (To arg4) gas (SetBytes value) input nonce 0%N in
   hash <-? GetHash txn;
   Ok (mkTransaction from (To arg4) gas (SetBytes value) input nonce hash))
  end end end.

Definition Call (arg : txnArgs) (number : BlockNumber)
    : txnArgs * result argBytes :=
  let '(arg', transaction) := decodeTxn arg in
  (arg',
   txn <-? transaction;
   header <-? getBlockHeaderImpl number;
   retValue <-? Backend_Call b txn header;
   Ok retValue).

Definition EstimateGas (arg : txnArgs) (rawNum : option BlockNumber)
    : txnArgs * result argUint64 :=
  let '(arg', transaction) := decodeTxn arg in
  (arg',
   txn <-? transaction;
   gas <-? Backend_EstimateGas b txn None;
   Ok gas).

(** The two nested loops of [GetLogs] over the receipts of a block. *)
Fixpoint filterLogs (filterOptions : LogFilter) (logs : list Log)
    (acc : list Log) : result (list Log) :=
  match logs with
  | [] => Ok acc
  | log :: rest =>
      m <-? Match filterOptions log;
      filterLogs filterOptions rest (if m then acc ++ [log] else acc)
  end.

Fixpoint filterReceipts (filterOptions : LogFilter) (receipts : list Receipt)
    (acc : list Log) : result (list Log) :=
  match receipts with
  | [] => Ok acc
  | receipt :: rest =>
      acc' <-? filterLogs filterOptions (Logs receipt) acc;
      filterReceipts filterOptions rest acc'
  end.

(** The closure [resolveNum] of [GetLogs]; it reads [head.Number]. *)
Definition resolveNum (head : option Block) (num : BlockNumber) : result N :=
  let num :=
    if bool_decide (num = PendingBlockNumber)
       || bool_decide (num = EarliestBlockNumber)
    then LatestBlockNumber else num in
  if bool_decide (num = LatestBlockNumber)
  then h <-? deref head; Ok (Block_Number h)
  else Ok (uint64_of_int64 num).

Definition GetLogs (filterOptions : LogFilter) : result (list Log) :=
  let head := Backend_Header b in
  match BlockHash filterOptions with
  | Some hash =>
      receipts <-? Backend_GetReceiptsByHash b hash;
      filterReceipts filterOptions receipts []
  | None =>
      from <-? resolveNum head (fromBlock filterOptions);
      to <-? resolveNum head (toBlock filterOptions);
      if (to <? from)%N then Err "incorrect range"
      else
        logs <-? Backend_GetLogs b (mkGetLogsInput from to (Addresses filterOptions)
                              (Topics filterOptions));
        Ok logs
  end.

End Eth.

(** ** JSON values and [json.Unmarshal] into parameter slots

    A JSON text that parsed, as [encoding/json] sees it. A number keeps its
    literal. A string is given by what it holds: [JString s] is the literal
    that writes [s] with no escape sequence but the ones JSON demands (see
    [escapeBody]); [JEscaped raw content] is a string literal written in any
    other way, for instance with a [\u] escape for a letter: [raw] is the
    text between its two quotes and [content] the string the literal decodes
    to. *)

Inductive JSON : Type :=
| JNull
| JBool (v : bool)
| JNumber (literal : string)
| JString (s : string)
| JArray (elems : list JSON)
| JObject (members : list (string * JSON))
| JEscaped (raw : string) (content : string).

Definition backslash : ascii := "092"%char.

(** One character of a string as a JSON literal has to write it: the quote
    and the backslash behind a backslash, a control character as a [\u]
    escape, any other byte as it is. *)
Definition escapeChar (c : ascii) : string :=
  if Ascii.eqb c dquote then String backslash (String dquote EmptyString)
  else if Ascii.eqb c backslash then String backslash (String backslash EmptyString)
  else if (N_of_ascii c <? 32)%N then
    String backslash
      (String "u"
         (String "0"
            (String "0"
               (String (hexdigit (N_of_ascii c / 16))
                  (String (hexdigit (N_of_ascii c mod 16)) EmptyString)))))
  else String c EmptyString.

Fixpoint escapeBody (s : string) : string :=
  match s with
  | EmptyString => EmptyString
  | String c rest => String.append (escapeChar c) (escapeBody rest)
  end.

(** The text of a value as it stands in a request written without
    insignificant white space: what [UnmarshalJSON] receives. A string
    arrives as it was written, escape sequences included. *)
Fixpoint rawText (j : JSON) : string :=
  match j with
  | JNull => "null"
  | JBool true => "true"
  | JBool false => "false"
  | JNumber literal => literal
  | JString s => quote (escapeBody s)
  | JEscaped raw _ => quote raw
  | JArray elems =>
      String.append "["
        (String.append
           ((fix commas (l : list JSON) : string :=
               match l with
               | [] => EmptyString
               | [x] => rawText x
               | x :: rest =>
                   String.append (rawText x) (String.append "," (commas rest))
               end) elems) "]")
  | JObject members =>
      String.append "{"
        (String.append
           ((fix commas (l : list (string * JSON)) : string :=
               match l with
               | [] => EmptyString
               | [(k, x)] =>
                   String.append (quote (escapeBody k))
                     (String.append ":" (rawText x))
               | (k, x) :: rest =>
                   String.append (quote (escapeBody k))
                     (String.append ":"
                        (String.append (rawText x) (String.append "," (commas rest))))
               end) members) "}")
  end.

(** [strconv.ParseFloat(s, 64)] on a JSON number literal
    [-]digits[.digits][(e|E)[+|-]digits], as far as [encoding/json] looks at
    it: whether it reports a range error. [readDigits] reads a run of
    decimal digits after the value [acc], counting them. *)
Definition decDigit (c : ascii) : option N :=
  let n := N_of_ascii c in
  if (48 <=? n)%N && (n <=? 57)%N then Some (n - 48)%N else None.

Fixpoint readDigits (s : string) (acc : N) (count : N) : N * N * string :=
  match s with
  | EmptyString => (acc, count, EmptyString)
  | String c rest =>
      match decDigit c with
      | Some d => readDigits rest (acc * 10 + d)%N (count + 1)%N
      | None => (acc, count, s)
      end
  end.

(** The digits of the exponent: once the exponent has reached 10000 the
    library takes no further digit in. *)
Fixpoint readExponent (s : string) (e : Z) : Z :=
  match s with
  | EmptyString => e
  | String c rest =>
      match decDigit c with
      | Some d => readExponent rest (if (e <? 10000)%Z then e * 10 + Z.of_N d else e)%Z
      | None => e
      end
  end.

(** The literal as a mantissa and a power of ten: [m * 10 ^ x]. *)
Definition readFloat (s : string) : N * Z :=
  let s := match s with
           | String "-" rest => rest
           | _ => s
           end in
  let '(m, _, s) := readDigits s 0%N 0%N in
  let '(m, frac, s) :=
    match s with
    | String "." rest => readDigits rest m 0%N
    | _ => (m, 0%N, s)
    end in
  let e :=
    match s with
    | String c rest =>
        if Ascii.eqb c "e" || Ascii.eqb c "E" then
          match rest with
          | String "-" digits => (- readExponent digits 0)%Z
          | String "+" digits => readExponent digits 0%Z
          | _ => readExponent rest 0%Z
          end
        else 0%Z
    | EmptyString => 0%Z
    end in
  (m, (e - Z.of_N frac)%Z).

(** The value is rounded to the nearest float64, ties to even, and is out of
    range when the result is not finite: from [2^1024 - 2^970] on, half a
    unit in the last place beyond the largest float64. *)
Definition floatLimit : Z := (2 ^ 1024 - 2 ^ 970)%Z.

Definition floatRangeError (literal : string) : bool :=
  let '(m, x) := readFloat literal in
  if (0 <=? x)%Z then (floatLimit <=? Z.of_N m * 10 ^ x)%Z
  else (floatLimit * 10 ^ (- x) <=? Z.of_N m)%Z.

(** A parameter type as the dispatcher uses it through [reflect]: the values
    of the type, its zero value ([reflect.New]) and what [json.Unmarshal] does
    with one array element whose target is a slot of that type holding [cur]:
    the slot's new content, or the error. *)
Record GoType : Type := mkGoType {
  carrier : Type;
  zero : carrier;
  unmarshal : carrier -> JSON -> result carrier
}.

Definition errUnmarshalType : string := "json: cannot unmarshal into Go value".

(** A type with an [UnmarshalJSON] method (pointer receiver, not itself a
    pointer): [null] leaves the slot untouched without calling the method;
    any other element is handed over as its raw text. *)
Definition viaUnmarshalJSON {A : Type} (f : A -> string -> result A)
    (cur : A) (j : JSON) : result A :=
  match j with
  | JNull => Ok cur
  | _ => f cur (rawText j)
  end.

(** A type with an [UnmarshalText] method: only a JSON string is handed over
    (unquoted, its escape sequences resolved); [null] leaves the slot
    untouched; anything else is an [UnmarshalTypeError]. *)
Definition viaUnmarshalText {A : Type} (f : A -> string -> result A)
    (cur : A) (j : JSON) : result A :=
  match j with
  | JNull => Ok cur
  | JString s => f cur s
  | JEscaped _ content => f cur content
  | _ => Err errUnmarshalType
  end.

Definition TBlockNumber : GoType :=
  mkGoType BlockNumber 0%Z (viaUnmarshalJSON BlockNumber_UnmarshalJSON).

Definition TargBytes : GoType :=
  mkGoType argBytes [] (viaUnmarshalText argBytes_UnmarshalText).

Definition TargUint64 : GoType :=
  mkGoType argUint64 0%N (viaUnmarshalText argUint64_UnmarshalText).

Definition TargBig : GoType :=
  mkGoType argBig 0%Z (viaUnmarshalText argBig_UnmarshalText).

Definition Tstring : GoType :=
  mkGoType string EmptyString
    (fun cur j =>
       match j with
       | JNull => Ok cur
       | JString s => Ok s
       | JEscaped _ content => Ok content
       | _ => Err errUnmarshalType
       end).

Definition Tbool : GoType :=
  mkGoType bool false
    (fun cur j =>
       match j with
       | JNull => Ok cur
       | JBool v => Ok v
       | _ => Err errUnmarshalType
       end).

(** A pointer type [*T]: nil until an element other than [null] is decoded
    into a freshly allocated [T]. *)
Definition TPtr (t : GoType) : GoType :=
  mkGoType (option (carrier t)) None
    (fun cur j =>
       match j with
       | JNull => Ok None
       | _ =>
           v <-? unmarshal t (match cur with Some v => v | None => zero t end) j;
           Ok (Some v)
       end).

(** The argument values of a method with parameter types [ts]. *)
Fixpoint argsOf (ts : list GoType) : Type :=
  match ts with
  | [] => unit
  | t :: rest => (carrier t * argsOf rest)%type
  end.

Fixpoint zeros (ts : list GoType) : argsOf ts :=
  match ts with
  | [] => tt
  | t :: rest => (zero t, zeros rest)
  end.

(** [json.Unmarshal] of a value into a fresh [interface{}]: any JSON is
    taken, a number as a float64, so the one failure is a number literal out
    of the float64 range, at any depth. The error is kept and reported when
    the whole text has been read. *)
Fixpoint decodeInterface (j : JSON) : result unit :=
  match j with
  | JNumber literal =>
      if floatRangeError literal then Err errUnmarshalType else Ok tt
  | JArray elems =>
      (fix each (l : list JSON) : result unit :=
         match l with
         | [] => Ok tt
         | x :: rest => u <-? decodeInterface x; each rest
         end) elems
  | JObject members =>
      (fix each (l : list (string * JSON)) : result unit :=
         match l with
         | [] => Ok tt
         | (_, x) :: rest => u <-? decodeInterface x; each rest
         end) members
  | _ => Ok tt
  end.

Fixpoint decodeSurplus (elems : list JSON) : result unit :=
  match elems with
  | [] => Ok tt
  | j :: rest => u <-? decodeInterface j; decodeSurplus rest
  end.

(** [json.Unmarshal] of a JSON array into the slice [inputs] of pointers to
    the parameter slots. Elements are decoded in order into the slots; when
    the array is shorter than the slice the slice is cut and the remaining
    slots keep their zero value; when it is longer the slice grows and the
    surplus elements are decoded into fresh [interface{}] values
    ([decodeSurplus]). An error on any element makes the whole call return
    an error (the slots are then not used). *)
Fixpoint decodeArgs (ts : list GoType) (elems : list JSON) : result (argsOf ts) :=
  match ts with
  | [] => u <-? decodeSurplus elems; Ok tt
  | t :: ts' =>
      match elems with
      | [] => Ok (zeros (t :: ts'))
      | j :: elems' =>
          v <-? unmarshal t (zero t) j;
          rest <-? decodeArgs ts' elems';
          Ok (v, rest)
      end
  end.

Definition errSyntaxJSON : string := "unexpected end of JSON input".

(** [json.Unmarshal(req.Params, &inputs)]; [params] is [None] when the raw
    bytes are not a JSON text (absent params included). [null] sets the
    slice to nil and leaves every slot at its zero value; a value that is
    neither an array nor [null] is an [UnmarshalTypeError]. *)
Definition unmarshalParams (ts : list GoType) (params : option JSON)
    : result (argsOf ts) :=
  match params with
  | None => Err errSyntaxJSON
  | Some JNull => Ok (zeros ts)
  | Some (JArray elems) => decodeArgs ts elems
  | Some _ => Err errUnmarshalType
  end.

(** ** The dispatcher *)

(** Modelled from the spec: the envelope types [Request], [Response] and
    [ErrorObject] are declared outside the files at hand; the fields are the
    ones the dispatcher reads and writes. [Params] is a [json.RawMessage],
    kept as the JSON text it parses to. *)
Record Request : Type := mkRequest {
  ID : JSON;
  Method : string;
  Params : option JSON
}.

Record Response : Type := mkResponse {
  Response_ID : JSON;
  Response_JSONRPC : string;
  Response_Result : option string
}.

Record ErrorObject : Type := mkErrorObject {
  Code : Z;
  Message : string
}.

Definition invalidJSONRequest : ErrorObject :=
  mkErrorObject (-32600) "invalid json request".

Definition internalError : ErrorObject :=
  mkErrorObject (-32603) "internal error".

Definition invalidMethod (method : string) : ErrorObject :=
  mkErrorObject (-32601)
    (String.append "The method "
       (String.append method " does not exist/is not available")).

Definition invalidArguments (method : string) : ErrorObject :=
  mkErrorObject (-32602) (String.append "invalid arguments to " method).

(** What [fv.Call] gives back: [output[0]], an interface value that is nil or
    a value on which [json.Marshal] returns the text or an error, and
    [output[1]], the handler's error. *)
Record Output : Type := mkOutput {
  out_res : option (result string);
  out_err : option string
}.

(** [funcData]: [params] is [reqt[1:]], the parameter types after the
    receiver, and [fv] the method applied to the receiver. *)
Record funcData : Type := mkFuncData {
  inNum : nat;
  params : list GoType;
  fv : argsOf params -> Output;
  isDyn : bool
}.

Definition numParams (f : funcData) : nat := inNum f - 1.

Record serviceData : Type := mkServiceData {
  funcMap : gmap string funcData
}.

(** The lines the dispatcher writes to its logger. *)
Inductive LogLine : Type :=
| LogDebugRequest (method : string) (id : JSON)
| LogErrorDispatch (method : string) (err : string).

Record Dispatcher : Type := mkDispatcher {
  serviceMap : gmap string serviceData
}.

(** [strings.SplitN(s, "_", 2)] when it yields two parts. *)
Fixpoint splitFirst (sep : ascii) (s : string) : option (string * string) :=
  match s with
  | EmptyString => None
  | String c rest =>
      if Ascii.eqb c sep then Some (EmptyString, rest)
      else
        match splitFirst sep rest with
        | Some (a, b) => Some (String c a, b)
        | None => None
        end
  end.

Definition getFnHandler (d : Dispatcher) (req : Request)
    : serviceData * funcData + ErrorObject :=
  match splitFirst "_"%char (Method req) with
  | None => inr (invalidMethod (Method req))
  | Some (serviceName, funcName) =>
      match serviceMap d !! serviceName with
      | None => inr (invalidMethod (Method req))
      | Some service =>
          match funcMap service !! funcName with
          | None => inr (invalidMethod (Method req))
          | Some fd => inl (service, fd)
          end
      end
  end.

(** [Dispatcher.internalError]: logs the error and returns the fixed object. *)
Definition dispatcherInternalError (method : string) (err : string)
    (log : list LogLine) : ErrorObject * list LogLine :=
  (internalError, log ++ [LogErrorDispatch method err]).

(** What a call of the dispatcher ends in: the response envelope (whose
    final [json.Marshal] cannot fail on an id and a result that came out of
    [encoding/json]), the error object, or a panic. *)
Inductive Reply : Type :=
| Replied (resp : Response)
| Failed (err : ErrorObject)
| Panicked.

(** [handleReq], with the logger's content before and after. *)
Definition handleReq (d : Dispatcher) (req : Request) (log : list LogLine)
    : Reply * list LogLine :=
  let log := log ++ [LogDebugRequest (Method req) (ID req)] in
  match getFnHandler d req with
  | inr err => (Failed err, log)
  | inl (service, fd) =>
      match unmarshalParams (params fd) (Params req) with
      | Panic => (Panicked, log)
      | Err _ => (Failed (invalidArguments (Method req)), log)
      | Ok inArgs =>
          let output := fv fd inArgs in
          match out_err output with
          | Some err =>
              let '(e, log') := dispatcherInternalError (Method req) err log in
              (Failed e, log')
          | None =>
              match out_res output with
              | None => (Replied (mkResponse (ID req) "2.0" None), log)
              | Some (Ok data) =>
                  (Replied (mkResponse (ID req) "2.0" (Some data)), log)
              | Some (Err err) =>
                  let '(e, log') := dispatcherInternalError (Method req) err log in
                  (Failed e, log')
              | Some Panic => (Panicked, log)
              end
          end
      end
  end.

(** [Handle]: [req] is [None] when the body is not a JSON request. *)
Definition Handle (d : Dispatcher) (req : option Request) (log : list LogLine)
    : Reply * list LogLine :=
  match req with
  | None => (Failed invalidJSONRequest, log)
  | Some req => handleReq d req log
  end.

(** ** Decoding a LogFilter (net_endpoint.go)

    [LogFilter.UnmarshalJSON] first lets [json.Unmarshal] fill the anonymous
    struct [obj]; the model starts from that struct. [Address] is an
    [interface{}] and holds the generic decoding of the member, which is the
    JSON value itself ([JNull] when the member is absent or null); [Topics]
    holds one such value per array element (none when absent). A decoded
    string is there by what it holds, as a [JString], however the text wrote
    it; [JEscaped] stands for a piece of text and is no decoded value. *)
Record filterObj : Type := mkFilterObj {
  obj_BlockHash : option Hash;
  obj_FromBlock : string;
  obj_ToBlock : string;
  obj_Address : JSON;
  obj_Topics : list JSON
}.

(** A method that changes its receiver and returns an error: the receiver
    afterwards, and the outcome. *)
Definition step : Type := LogFilter -> LogFilter * result unit.

Definition andThen (m1 m2 : step) : step :=
  fun l =>
    match m1 l with
    | (l', Ok _) => m2 l'
    | (l', Err e) => (l', Err e)
    | (l', Panic) => (l', Panic)
    end.

Definition done_ : step := fun l => (l, Ok tt).
Definition fail_ (e : string) : step := fun l => (l, Err e).

(** A [for ... range] loop whose body may return. *)
Fixpoint forEach {A : Type} (body : A -> step) (xs : list A) : step :=
  match xs with
  | [] => done_
  | x :: rest => andThen (body x) (forEach body rest)
  end.

(** The loop of [addTopicSet] and of the array case of the topics: collects
    the decoded items, or stops at the first error. *)
Fixpoint collect {A B : Type} (f : A -> result B) (xs : list A) (acc : list B)
    : result (list B) :=
  match xs with
  | [] => Ok acc
  | x :: rest => y <-? f x; collect f rest (acc ++ [y])
  end.

Definition errAddressExpected : string := "address expected".
Definition errHashExpected : string := "hash expected".
Definition errDecodeAddress : string :=
  "failed to decode address. Expected either '' or ['', '']".
Definition errDecodeTopics : string :=
  "failed to decode topics. Expected '' or [''] or null".

Section FilterDecode.

(** [ethgo.Hash.UnmarshalText] and [ethgo.Address.UnmarshalText] on a fresh
    value: library functions of the text alone. *)
Variable Hash_UnmarshalText : string -> result Hash.
Variable Address_UnmarshalText : string -> result Address.

Definition addTopicSet (set : list string) : step :=
  fun l =>
    match collect Hash_UnmarshalText set [] with
    | Ok res =>
        (mkLogFilter (BlockHash l) (fromBlock l) (toBlock l) (Addresses l)
           (Topics l ++ [res]), Ok tt)
    | Err e => (l, Err e)
    | Panic => (l, Panic)
    end.

Definition addAddress (raw : string) : step :=
  fun l =>
    match Address_UnmarshalText raw with
    | Ok addr =>
        (mkLogFilter (BlockHash l) (fromBlock l) (toBlock l)
           (Addresses l ++ [addr]) (Topics l), Ok tt)
    | Err e => (l, Err e)
    | Panic => (l, Panic)
    end.

(** The assignment [l.fromBlock, err = stringToBlockNumber(..)]: on an error
    the field receives the zero the function returns with it. *)
Definition setFromBlock (str : string) : step :=
  fun l =>
    if String.eqb str "" then
      (mkLogFilter (BlockHash l) LatestBlockNumber (toBlock l) (Addresses l)
         (Topics l), Ok tt)
    else
      match stringToBlockNumber str with
      | Ok n =>
          (mkLogFilter (BlockHash l) n (toBlock l) (Addresses l) (Topics l), Ok tt)
      | Err e =>
          (mkLogFilter (BlockHash l) 0%Z (toBlock l) (Addresses l) (Topics l), Err e)
      | Panic => (l, Panic)
      end.

Definition setToBlock (str : string) : step :=
  fun l =>
    if String.eqb str "" then
      (mkLogFilter (BlockHash l) (fromBlock l) LatestBlockNumber (Addresses l)
         (Topics l), Ok tt)
    else
      match stringToBlockNumber str with
      | Ok n =>
          (mkLogFilter (BlockHash l) (fromBlock l) n (Addresses l) (Topics l), Ok tt)
      | Err e =>
          (mkLogFilter (BlockHash l) (fromBlock l) 0%Z (Addresses l) (Topics l), Err e)
      | Panic => (l, Panic)
      end.

(** The type switch on [obj.Address]. *)
Definition decodeAddress (address : JSON) : step :=
  match address with
  | JNull => done_
  | JString raw => addAddress raw
  | JArray raw =>
      forEach (fun addr =>
                 match addr with
                 | JString item => addAddress item
                 | _ => fail_ errAddressExpected
                 end) raw
  | _ => fail_ errDecodeAddress
  end.

(** The type switch on one element of [obj.Topics]. *)
Definition decodeTopic (item : JSON) : step :=
  match item with
  | JString raw => addTopicSet [raw]
  | JArray raw =>
      match collect (fun i => match i with
                              | JString item => Ok item
                              | _ => Err errHashExpected
                              end) raw [] with
      | Ok res => addTopicSet res
      | Err e => fail_ e
      | Panic => fun l => (l, Panic)
      end
  | JNull => addTopicSet []
  | _ => fail_ errDecodeTopics
  end.

(** [LogFilter.UnmarshalJSON]; [decoded] is what [json.Unmarshal(data, &obj)]
    gave: the struct, or its error. *)
Definition LogFilter_UnmarshalJSON (decoded : result filterObj) : step :=
  fun l =>
    match decoded with
    | Err e => (l, Err e)
    | Panic => (l, Panic)
    | Ok obj =>
        andThen
          (fun l => (mkLogFilter (obj_BlockHash obj) (fromBlock l) (toBlock l)
                       (Addresses l) (Topics l), Ok tt))
          (andThen (setFromBlock (obj_FromBlock obj))
             (andThen (setToBlock (obj_ToBlock obj))
                (andThen (decodeAddress (obj_Address obj))
                   (forEach decodeTopic (obj_Topics obj))))) l
    end.

End FilterDecode.

(** The zero [LogFilter], as [&LogFilter{}] or [reflect.New] makes it. *)
Definition emptyLogFilter : LogFilter := mkLogFilter None 0%Z 0%Z [] [].

(** The slot a topics element stands for, as strings: [null] is the empty
    slot, a string a singleton, an array of strings the set. *)
Definition topicStrings (item : JSON) : option (list string) :=
  match item with
  | JNull => Some []
  | JString raw => Some [raw]
  | JArray raw =>
      match collect (fun i => match i with
                              | JString item => Ok item
                              | _ => Err errHashExpected
                              end) raw [] with
      | Ok res => Some res
      | _ => None
      end
  | _ => None
  end.

(** The addresses an address member stands for, as strings: none when it
    is absent or null, one for a string, the elements of an array of strings. *)
Definition addressStrings (address : JSON) : option (list string) :=
  match address with
  | JNull => Some []
  | JString raw => Some [raw]
  | JArray raw =>
      match collect (fun i => match i with
                              | JString item => Ok item
                              | _ => Err errAddressExpected
                              end) raw [] with
      | Ok res => Some res
      | _ => None
      end
  | _ => None
  end.

(** The block number a range member stands for: Latest for the empty
    string, otherwise what [stringToBlockNumber] makes of it. *)
Definition blockOf (str : string) (n : BlockNumber) : Prop :=
  (str = EmptyString /\ n = LatestBlockNumber)
  \/ (str <> EmptyString /\ stringToBlockNumber str = Ok n).

(** ** The filter manager *)

(** Modelled from the spec: the filter manager itself (filter_manager.go) is
    not among the files at hand, only its test is. A filter is a log, block or
    pending-transaction filter; it is in subscription mode when it holds a
    WebSocket writer and in polling mode otherwise; a polling filter
    accumulates its items in a buffer (for a block filter: the heads appended
    since its cursor) and carries the time of its last access. *)
Inductive FilterKind : Type :=
| KindLog (filter : LogFilter)
| KindBlock
| KindPendingTx.

Inductive FilterItem : Type :=
| ItemLog (log : Log) (removed : bool)
| ItemHash (hash : Hash).

Record Filter : Type := mkFilter {
  filter_kind : FilterKind;
  filter_ws : option nat;
  filter_buffer : list FilterItem;
  filter_lastAccess : Z
}.

Record FilterManager : Type := mkFilterManager {
  filters : gmap string Filter;
  timeout : Z
}.

Definition errFilterDoesNotExists : string := "filter does not exist".

Definition isWS (f : Filter) : bool :=
  match filter_ws f with Some _ => true | None => false end.

(** Modelled from the spec: installing a filter under a fresh identifier
    [id] at time [now]; [ws] is the writer of a subscription, absent for a
    polling filter. *)
Definition addFilter (m : FilterManager) (id : string) (kind : FilterKind)
    (ws : option nat) (now : Z) : FilterManager :=
  mkFilterManager (<[id := mkFilter kind ws [] now]> (filters m)) (timeout m).

Definition NewLogFilter (m : FilterManager) (id : string) (filter : LogFilter)
    (ws : option nat) (now : Z) : FilterManager :=
  addFilter m id (KindLog filter) ws now.

Definition NewBlockFilter (m : FilterManager) (id : string) (ws : option nat)
    (now : Z) : FilterManager :=
  addFilter m id KindBlock ws now.

(** Modelled from the spec: "Polling-mode only; subscription-mode ids return
    "filter does not exist". Resets the filter's buffer and refreshes its
    last-access stamp." The result is the accumulated batch. *)
Definition GetFilterChanges (m : FilterManager) (id : string) (now : Z)
    : FilterManager * result (list FilterItem) :=
  match filters m !! id with
  | None => (m, Err errFilterDoesNotExists)
  | Some item =>
      if isWS item then (m, Err errFilterDoesNotExists)
      else
        (mkFilterManager
           (<[id := mkFilter (filter_kind item) (filter_ws item) [] now]> (filters m))
           (timeout m),
         Ok (filter_buffer item))
  end.

Definition Exists (m : FilterManager) (id : string) : bool :=
  match filters m !! id with Some _ => true | None => false end.

Definition Uninstall (m : FilterManager) (id : string) : FilterManager * bool :=
  match filters m !! id with
  | Some _ => (mkFilterManager (delete id (filters m)) (timeout m), true)
  | None => (m, false)
  end.

(** ** Values the tests use (query_test.go, eth_endpoint_test.go) *)

Definition addr0 : Address := (2 ^ 152)%N.
Definition addr1 : Address := 1%N.
Definition addr2 : Address := 2%N.
Definition hash1 : Hash := 1%N.
Definition hash2 : Hash := 2%N.
Definition hash3 : Hash := 3%N.

(** Whether [Match] returned true. *)
Definition matches (l : LogFilter) (log : Log) : bool :=
  match Match l log with
  | Ok true => true
  | _ => false
  end.

(** The block number a range end stands for, as the specification words it:
    the three tags mean the head, anything else is itself as a [uint64]. *)
Definition resolvedBlock (head : Block) (num : BlockNumber) : N :=
  if decide (num = PendingBlockNumber \/ num = EarliestBlockNumber
             \/ num = LatestBlockNumber)
  then Block_Number head
  else uint64_of_int64 num.

(** A backend in the style of the test stores: head at height 10, headers
    for heights up to 10, one account at [addr0] with state nonce 3 and a
    pending nonce 7 in the pool, one receipt under [hash1]. *)
Definition sampleBackend : EthBackend := {|
  Backend_Header := Some (mkBlock 10%N 0%N 0%N);
  Backend_GetReceiptsByHash := fun h =>
    if decide (h = hash1) then Ok [mkReceipt [mkLog addr1 [hash2; hash3]]]
    else Ok [];
  Backend_GetHeaderByNumber := fun n =>
    if (n <=? 10)%N then (Some (mkBlock n 0%N 0%N), true) else (None, false);
  Backend_GetNonce := fun _ => (7%N, true);
  Backend_GetAccount := fun _ a =>
    if decide (a = addr0) then (Some (mkAccount 3%N (Some 100%Z) 0%N []), None)
    else (None, None);
  Backend_GetStorage := fun _ _ _ => Ok [];
  Backend_GetCode := fun _ => Ok [];
  Backend_GetAvgGasPrice := Some 1%Z;
  Backend_GetLogs := fun _ => Ok [];
  Backend_Call := fun _ _ => Ok [];
  Backend_EstimateGas := fun _ _ => Ok 21000%N
|}.

(** A call request that names only its sender and its target. *)
Definition sampleArgs : txnArgs :=
  mkTxnArgs (Some addr0) (Some addr1) None None None None None None.

Definition sampleGetHash : Transaction -> result Hash := fun _ => Ok 0%N.

(** The mock service of the dispatcher tests, as [Register] files it: [Block]
    takes a [BlockNumber], [BlockPtr] a string and a [*BlockNumber], both
    return [(nil, nil)]; [Err] returns the error "err". *)
Definition mockDispatcher : Dispatcher :=
  mkDispatcher
    {[ "mock"%string :=
         mkServiceData
           (<[ "block"%string :=
                 mkFuncData 2 [TBlockNumber] (fun _ => mkOutput None None) false ]>
            (<[ "blockPtr"%string :=
                 mkFuncData 3 [Tstring; TPtr TBlockNumber]
                   (fun _ => mkOutput None None) true ]>
             {[ "err"%string :=
                 mkFuncData 1 [] (fun _ => mkOutput None (Some "err"%string)) true ]})) ]}.

(** The web3 service with its [Sha3] method over a hash function [keccak]:
    the digest is returned as an [*argBytes], marshalled as a JSON string. *)
Definition web3Dispatcher (keccak : list byte -> list byte) : Dispatcher :=
  mkDispatcher
    {[ "web3"%string :=
         mkServiceData
           {[ "sha3"%string :=
                mkFuncData 2 [TargBytes]
                  (fun args =>
                     mkOutput
                       (Some (text <-? argBytes_MarshalText (keccak (fst args));
                              Ok (quote text)))
                       None)
                  false ]} ]}.



(** * Properties *)

Section MatchFacts.

Lemma matchAddresses_acc (addrs : list Address) (a : Address) (m : bool) :
  fold_left (fun m addr => if decide (addr = a) then true else m) addrs m
  = m || bool_decide (a ∈ addrs).
Proof.
  revert m. induction addrs as [|x xs IH]; intros m; cbn [fold_left].
  - rewrite bool_decide_eq_false_2; [by rewrite orb_false_r | by apply not_elem_of_nil].
  - rewrite IH. destruct (decide (x = a)) as [->|Hne].
    + rewrite (bool_decide_eq_true_2 (a ∈ a :: xs)); [|apply elem_of_cons; by left].
      by rewrite orb_true_r.
    + destruct m; simpl; [done|].
      apply bool_decide_ext. rewrite elem_of_cons. intuition congruence.
Qed.

Lemma matchAddresses_spec (addrs : list Address) (a : Address) :
  matchAddresses addrs a = true <-> a ∈ addrs.
Proof.
  unfold matchAddresses. rewrite matchAddresses_acc. simpl.
  apply bool_decide_eq_true.
Qed.

Lemma matchSlot_spec (ts : list Hash) (i : nat) (t : Hash) (sub : list Hash) (m : bool) :
  ts !! i = Some t ->
  matchSlot ts i sub m = Ok (m || bool_decide (t ∈ sub)).
Proof.
  intros Ht. induction sub as [|x xs IH]; cbn [matchSlot].
  - rewrite bool_decide_eq_false_2; [by rewrite orb_false_r | by apply not_elem_of_nil].
  - rewrite Ht. destruct (decide (t = x)) as [->|Hne].
    + rewrite bool_decide_eq_true_2; [by rewrite orb_true_r | apply elem_of_cons; by left].
    + rewrite IH. f_equal. f_equal.
      apply bool_decide_ext. rewrite elem_of_cons. intuition congruence.
Qed.

Lemma matchTopics_spec (ts : list Hash) (subs : list (list Hash)) (i : nat) :
  i + length subs <= length ts ->
  exists b, matchTopics ts i subs = Ok b
    /\ (b = true <->
        forall (j : nat) (sub : list Hash), subs !! j = Some sub ->
          sub = [] \/ exists t, ts !! (i + j) = Some t /\ t ∈ sub).
Proof.
  revert i. induction subs as [|sub rest IH]; intros i Hlen; simpl in *.
  - exists true. split; [done|]. split; [|done]. intros _ j sub Hj. done.
  - destruct (lookup_lt_is_Some_2 ts i) as [t Ht]; [lia|].
    rewrite (matchSlot_spec _ _ t _ _ Ht). simpl.
    destruct (IH (S i)) as (b & Hb & Hspec); [lia|].
    destruct (bool_decide (length sub = 0) || bool_decide (t ∈ sub)) eqn:Hm.
    + exists b. split; [done|]. rewrite Hspec. split.
      * intros H [|j] s Hj; simpl in Hj.
        -- injection Hj as <-. rewrite Nat.add_0_r.
           apply orb_true_iff in Hm as [Hm|Hm]; apply bool_decide_eq_true in Hm.
           ++ left. by apply nil_length_inv.
           ++ right. eauto.
        -- replace (i + S j) with (S i + j) by lia. by apply H.
      * intros H j s Hj. replace (S i + j) with (i + S j) by lia. by apply H.
    + exists false. split; [done|]. split; [done|]. intros H.
      apply orb_false_iff in Hm as [Hm1 Hm2].
      apply bool_decide_eq_false in Hm1. apply bool_decide_eq_false in Hm2.
      destruct (H 0 sub eq_refl) as [->|(t' & Ht' & Hin)]; [done|].
      rewrite Nat.add_0_r in Ht'. congruence.
Qed.

Lemma Match_cases (l : LogFilter) (log : Log) :
  (exists b, Match l log = Ok b)
  /\ (Match l log = Ok true <-> MatchSpec l log)
  /\ (length (Log_Topics log) < length (Topics l) -> Match l log = Ok false).
Proof.
unfold Match, MatchSpec.
destruct (bool_decide (0 < length (Addresses l))
          && negb (matchAddresses (Addresses l) (Log_Address log))) eqn:Ha.
- apply andb_true_iff in Ha as [Hpos Hno].
  apply bool_decide_eq_true in Hpos. apply negb_true_iff in Hno.
  split; [by eexists|]. split; [|done]. split; [done|].
  intros [[Hnil|Hin] _].
  + rewrite Hnil in Hpos. simpl in Hpos. lia.
  + apply matchAddresses_spec in Hin. congruence.
- assert (Haddr : Addresses l = [] \/ Log_Address log ∈ Addresses l).
  { apply andb_false_iff in Ha as [Ha|Ha].
    - apply bool_decide_eq_false in Ha. left. apply nil_length_inv. lia.
    - apply negb_false_iff in Ha. right. by apply matchAddresses_spec. }
  destruct (bool_decide (length (Log_Topics log) < length (Topics l))) eqn:Hlen.
  + apply bool_decide_eq_true in Hlen.
    split; [by eexists|]. split; [|done]. split; [done|].
    intros (_ & Hle & _). lia.
  + apply bool_decide_eq_false in Hlen.
    destruct (matchTopics_spec (Log_Topics log) (Topics l) 0) as (b & Hb & Hspec);
      [simpl; lia|].
    rewrite Hb. split; [by eexists|]. split; [|intros; lia].
    split.
    * intros [= ->]. split; [done|]. split; [lia|]. by apply Hspec.
    * intros (_ & _ & H). f_equal. by apply Hspec.
Qed.

End MatchFacts.

(** C1: [Match] always returns, and it returns true exactly when the address
    condition and the positional topic condition of the specification hold; a
    filter with more slots than the log has topics does not match. *)
Theorem C1_Match_iff (l : LogFilter) (log : Log) :
  (exists b, Match l log = Ok b)
  /\ (Match l log = Ok true <-> MatchSpec l log)
  /\ (length (Log_Topics log) < length (Topics l) -> Match l log = Ok false).
Proof. apply Match_cases. Qed.

(** The second case of TestFilterMatch: two slots against a one-topic log. *)
Lemma C1_Match_iff_witness :
  Match (mkLogFilter None 0%Z 0%Z [] [[hash1]; [hash1]]) (mkLog 0%N [hash1])
  = Ok false.
Proof.
  apply (C1_Match_iff (mkLogFilter None 0%Z 0%Z [] [[hash1]; [hash1]])
           (mkLog 0%N [hash1])).
  simpl. lia.
Defined.

Section CodecFacts.

Lemma fromHexChar_digitVal (c : ascii) (d : N) :
  fromHexChar c = Some d -> digitVal c = Some d /\ (d < 16)%N.
Proof.
  destruct c as [[] [] [] [] [] [] [] []]; vm_compute;
    intros H; try discriminate H; injection H as <-; done.
Qed.

Lemma fromHexChar_hexdigit (d : N) :
  (d < 16)%N -> fromHexChar (hexdigit d) = Some d.
Proof.
  intros Hd. destruct d as [|p]; [reflexivity|].
  do 4 (destruct p as [p|p|]; try reflexivity; try lia).
Qed.

Lemma hexValue_le (s : string) (n v : N) :
  hexValue s n = Some v -> (n <= v)%N.
Proof.
  revert n. induction s as [|c rest IH]; intros n; simpl.
  - intros [= ->]. lia.
  - destruct (fromHexChar c) as [d|]; [|done].
    intros H. apply IH in H. lia.
Qed.

Lemma formatBits_hexValue (fuel : nat) (u : N) (acc : string) :
  (u < 2 ^ N.of_nat fuel)%N ->
  hexValue (formatBits fuel u acc) 0 = hexValue acc u.
Proof.
  revert u acc. induction fuel as [|fuel IH]; intros u acc Hu.
  - simpl in Hu. assert (u = 0%N) as -> by lia. reflexivity.
  - cbn [formatBits]. destruct (16 <=? u)%N eqn:Hge.
    + apply N.leb_le in Hge. rewrite IH.
      * cbn [hexValue]. rewrite fromHexChar_hexdigit by (apply N.mod_lt; lia).
        f_equal. pose proof (N.div_mod u 16). lia.
      * apply N.Div0.div_lt_upper_bound.
        rewrite Nat2N.inj_succ, N.pow_succ_r' in Hu.
        assert (0 < 2 ^ N.of_nat fuel)%N by (apply N.neq_0_lt_0, N.pow_nonzero; lia).
        lia.
    + apply N.leb_gt in Hge. cbn [hexValue].
      rewrite fromHexChar_hexdigit by done. reflexivity.
Qed.

Lemma formatHex_hexValue (u : N) : hexValue (formatHex u) 0 = Some u.
Proof.
  unfold formatHex. rewrite formatBits_hexValue; [done|].
  rewrite N2Nat.id. apply N.size_gt.
Qed.

Lemma formatBits_nonempty (fuel : nat) (u : N) (acc : string) :
  formatBits fuel u acc <> EmptyString.
Proof.
  revert u acc. induction fuel as [|fuel IH]; intros u acc; cbn [formatBits]; [done|].
  destruct (16 <=? u)%N; [apply IH | done].
Qed.

Lemma ParseUint_loop_hexValue (s : string) (n v : N) :
  hexValue s n = Some v -> (v < 2 ^ 64)%N ->
  ParseUint_loop 16 s n = Ok v.
Proof.
  revert n. induction s as [|c rest IH]; intros n; cbn [hexValue ParseUint_loop].
  - by intros [= ->].
  - destruct (fromHexChar c) as [d|] eqn:Hc; [|done].
    apply fromHexChar_digitVal in Hc as [-> Hd].
    intros Hv Hlt. pose proof (hexValue_le _ _ _ Hv) as Hle.
    rewrite (proj2 (N.leb_gt 16 d)) by done.
    change (maxUint64 / 16 + 1)%N with (2 ^ 60)%N.
    change (2 ^ 60)%N with 1152921504606846976%N in *.
    change (2 ^ 64)%N with 18446744073709551616%N in *.
    rewrite (proj2 (N.leb_gt _ n)) by lia.
    cbv zeta. rewrite N.mod_small by lia.
    rewrite (proj2 (N.ltb_ge _ _)) by lia.
    unfold maxUint64. change (2 ^ 64 - 1)%N with 18446744073709551615%N.
    rewrite (proj2 (N.ltb_ge _ _)) by lia.
    simpl. by apply IH.
Qed.

Lemma string_pair_ind (P : string -> Prop) :
  P EmptyString ->
  (forall c, P (String c EmptyString)) ->
  (forall a b s, P s -> P (String a (String b s))) ->
  forall s, P s.
Proof.
  intros H0 H1 H2 s.
  enough (P s /\ forall c, P (String c s)) by tauto.
  induction s as [|a s [IHs IHc]]; split; auto.
Qed.

Lemma nibbles_byte (a b : N) :
  (a < 16)%N -> (b < 16)%N ->
  N_of_byte (byte_of_N (N.lor (N.shiftl a 4) b)) = (a * 16 + b)%N.
Proof.
  intros Ha Hb.
  assert (Hcases : forall d : N, (d < 16)%N ->
            d ∈ [0; 1; 2; 3; 4; 5; 6; 7; 8; 9; 10; 11; 12; 13; 14; 15]%N).
  { intros d Hd. destruct d as [|p]; [set_solver|].
    do 4 (destruct p as [p|p|]; try lia; try set_solver). }
  apply Hcases in Ha, Hb.
  repeat (apply elem_of_cons in Ha as [->|Ha]);
    try (by apply elem_of_nil in Ha);
    repeat (apply elem_of_cons in Hb as [->|Hb]);
    try (by apply elem_of_nil in Hb); reflexivity.
Qed.

Lemma mod2_SS (n : nat) : S (S n) mod 2 = n mod 2.
Proof. replace (S (S n)) with (n + 1 * 2) by lia. apply Nat.Div0.mod_add. Qed.

Lemma DecodeString_hexValue (s : string) :
  String.length s mod 2 = 0 ->
  forall n v, hexValue s n = Some v ->
  exists bs, DecodeString s = (bs, None)
    /\ fold_left (fun acc b => (acc * 256 + N_of_byte b)%N) bs n = v.
Proof.
  induction s as [|c|a b s IH] using string_pair_ind; intros Hlen n v.
  - intros [= ->]. by exists [].
  - discriminate Hlen.
  - cbn [String.length] in Hlen. rewrite mod2_SS in Hlen.
    cbn [hexValue DecodeString].
    destruct (fromHexChar a) as [da|] eqn:Ha; [|done].
    destruct (fromHexChar b) as [db|] eqn:Hb; [|done].
    intros Hv. destruct (IH Hlen _ _ Hv) as (bs & -> & Hfold).
    eexists. split; [reflexivity|]. cbn [fold_left].
    apply fromHexChar_digitVal in Ha as [_ Ha].
    apply fromHexChar_digitVal in Hb as [_ Hb].
    rewrite nibbles_byte by done.
    rewrite <- Hfold. f_equal. lia.
Qed.

Lemma byte_digits (v : byte) :
  exists a b,
    fromHexChar (hexdigit (N.shiftr (N_of_byte v) 4)) = Some a
    /\ fromHexChar (hexdigit (N.land (N_of_byte v) 15)) = Some b
    /\ byte_of_N (N.lor (N.shiftl a 4) b) = v.
Proof. destruct v; do 2 eexists; (split; [|split]); reflexivity. Qed.

Lemma DecodeString_EncodeToString (bs : list byte) :
  DecodeString (EncodeToString bs) = (bs, None).
Proof.
  induction bs as [|v bs IH]; [done|].
  cbn [EncodeToString DecodeString].
  destruct (byte_digits v) as (a & b & -> & -> & Hv).
  by rewrite IH, Hv.
Qed.

Lemma EncodeToString_even (bs : list byte) :
  String.length (EncodeToString bs) mod 2 = 0.
Proof.
  induction bs as [|v bs IH]; [done|].
  cbn [EncodeToString String.length]. by rewrite mod2_SS.
Qed.

Lemma TrimPrefix_0x (s : string) : TrimPrefix (String.append "0x" s) "0x" = s.
Proof. reflexivity. Qed.

Lemma argUint64_roundtrip (v u0 : argUint64) :
  (v < 2 ^ 64)%N ->
  rbind (argUint64_MarshalText v) (argUint64_UnmarshalText u0) = Ok v.
Proof.
  intros Hv. unfold argUint64_MarshalText, argUint64_UnmarshalText, rbind.
  rewrite TrimPrefix_0x. unfold ParseUint.
  destruct (formatHex v) eqn:Hs; [by apply formatBits_nonempty in Hs|].
  rewrite <- Hs.
  by rewrite (ParseUint_loop_hexValue _ _ _ (formatHex_hexValue v) Hv).
Qed.

Lemma argBig_roundtrip (v a0 : argBig) :
  (0 <= v)%Z ->
  rbind (argBig_MarshalText v) (argBig_UnmarshalText a0) = Ok v.
Proof.
  intros Hv. unfold argBig_MarshalText, argBig_UnmarshalText, rbind, decodeToHex.
  rewrite TrimPrefix_0x. unfold bigText16.
  rewrite (proj2 (Z.ltb_ge v 0)) by done.
  pose proof (formatHex_hexValue (Z.abs_N v)) as Hval.
  set (s := formatHex (Z.abs_N v)) in *.
  assert (Hdec : exists bs,
    DecodeString (if Nat.eqb (String.length s mod 2) 0 then s else String "0"%char s)
      = (bs, None) /\ SetBytes bs = v).
  { destruct (Nat.eqb (String.length s mod 2) 0) eqn:Hpar.
    - apply Nat.eqb_eq in Hpar.
      destruct (DecodeString_hexValue s Hpar _ _ Hval) as (bs & Hbs & Hfold).
      exists bs. split; [done|]. unfold SetBytes. rewrite Hfold. lia.
    - apply Nat.eqb_neq in Hpar.
      assert (Heven : String.length (String "0"%char s) mod 2 = 0).
      { cbn [String.length]. pose proof (Nat.mod_upper_bound (String.length s) 2).
        replace (S (String.length s)) with (String.length s + 1) by lia.
        rewrite Nat.Div0.add_mod. 
        destruct (String.length s mod 2) as [|[|k]]; [done|reflexivity|lia]. }
      destruct (DecodeString_hexValue _ Heven 0%N (Z.abs_N v)) as (bs & Hbs & Hfold);
        [exact Hval|].
      exists bs. split; [done|]. unfold SetBytes. rewrite Hfold. lia. }
  destruct Hdec as (bs & -> & <-). reflexivity.
Qed.

Lemma argBytes_roundtrip (v b0 : argBytes) :
  rbind (argBytes_MarshalText v) (argBytes_UnmarshalText b0) = Ok v.
Proof.
  unfold argBytes_MarshalText, argBytes_UnmarshalText, rbind, encodeToHex, decodeToHex.
  rewrite EncodeToString_even. cbn [Nat.eqb].
  rewrite TrimPrefix_0x, EncodeToString_even. cbn [Nat.eqb].
  by rewrite DecodeString_EncodeToString.
Qed.

End CodecFacts.

(** C8: for an [argUint64] (a 64-bit value), a non-negative [argBig] and any
    [argBytes], unmarshalling the text that marshalling produced returns the
    value again, whatever the receiver held before. *)
Theorem C8_codec_roundtrip :
  (forall v u0 : argUint64, (v < 2 ^ 64)%N ->
     rbind (argUint64_MarshalText v) (argUint64_UnmarshalText u0) = Ok v)
  /\ (forall v a0 : argBig, (0 <= v)%Z ->
     rbind (argBig_MarshalText v) (argBig_UnmarshalText a0) = Ok v)
  /\ (forall v b0 : argBytes,
     rbind (argBytes_MarshalText v) (argBytes_UnmarshalText b0) = Ok v).
Proof.
  split; [|split].
  - apply argUint64_roundtrip.
  - apply argBig_roundtrip.
  - apply argBytes_roundtrip.
Qed.

Lemma C8_codec_roundtrip_witness :
  rbind (argUint64_MarshalText 255%N) (argUint64_UnmarshalText 0%N) = Ok 255%N
  /\ rbind (argBig_MarshalText 4096%Z) (argBig_UnmarshalText 0%Z) = Ok 4096%Z
  /\ rbind (argBytes_MarshalText [Byte.x01; Byte.x02]) (argBytes_UnmarshalText [])
     = Ok [Byte.x01; Byte.x02].
Proof.
  destruct C8_codec_roundtrip as (Hu & Hb & Hy).
  split; [|split].
  - apply Hu. reflexivity.
  - apply Hb. discriminate.
  - apply Hy.
Defined.

Section GetLogsFacts.

Variable b : EthBackend.

Lemma filterLogs_spec (f : LogFilter) (logs acc : list Log) :
  filterLogs f logs acc = Ok (acc ++ List.filter (matches f) logs).
Proof.
  revert acc. induction logs as [|log rest IH]; intros acc; cbn [filterLogs List.filter].
  - by rewrite app_nil_r.
  - unfold matches at 1.
    destruct (Match_cases f log) as ([m Hm] & _). rewrite Hm. cbn [rbind].
    rewrite IH. destruct m; [|done]. by rewrite <- app_assoc.
Qed.

Lemma filterReceipts_spec (f : LogFilter) (receipts : list Receipt) (acc : list Log) :
  filterReceipts f receipts acc
  = Ok (acc ++ List.filter (matches f) (flat_map Logs receipts)).
Proof.
  revert acc. induction receipts as [|r rest IH]; intros acc;
    cbn [filterReceipts flat_map].
  - by rewrite app_nil_r.
  - rewrite filterLogs_spec. cbn [rbind]. rewrite IH.
    by rewrite List.filter_app, app_assoc.
Qed.

Lemma resolveNum_spec (head : Block) (num : BlockNumber) :
  resolveNum (Some head) num = Ok (resolvedBlock head num).
Proof.
  unfold resolveNum, resolvedBlock.
  destruct (decide (num = PendingBlockNumber)) as [->|Hp]; [done|].
  destruct (decide (num = EarliestBlockNumber)) as [->|He]; [done|].
  destruct (decide (num = LatestBlockNumber)) as [->|Hl]; [done|].
  rewrite (bool_decide_eq_false_2 (num = PendingBlockNumber)) by done.
  rewrite (bool_decide_eq_false_2 (num = EarliestBlockNumber)) by done.
  cbn [orb].
  rewrite (bool_decide_eq_false_2 (num = LatestBlockNumber)) by done.
  rewrite decide_False by tauto. done.
Qed.

End GetLogsFacts.

(** C2: with a block hash, [GetLogs] fetches that block's receipts and returns,
    in order, exactly their logs that [Match] accepts (a fetch error is
    returned as it is, the range is not looked at); without one, both range
    ends are resolved (the three tags to the head number), a resolved
    [to < from] is the error "incorrect range", and otherwise the result is
    the backend's [GetLogs] on the resolved input record. *)
Theorem C2_GetLogs (b : EthBackend) (f : LogFilter) :
  (forall hash : Hash, BlockHash f = Some hash ->
     GetLogs b f =
       (receipts <-? Backend_GetReceiptsByHash b hash;
        Ok (List.filter (matches f) (flat_map Logs receipts))))
  /\ (forall head : Block, BlockHash f = None -> Backend_Header b = Some head ->
     let from := resolvedBlock head (fromBlock f) in
     let to := resolvedBlock head (toBlock f) in
     GetLogs b f =
       if (to <? from)%N then Err "incorrect range"
       else Backend_GetLogs b (mkGetLogsInput from to (Addresses f) (Topics f))).
Proof.
  split.
  - intros hash Hh. unfold GetLogs. rewrite Hh.
    destruct (Backend_GetReceiptsByHash b hash) as [rs|e|]; cbn [rbind]; try done.
    by rewrite filterReceipts_spec.
  - intros head Hh Hhead from to. unfold GetLogs. rewrite Hh, Hhead.
    rewrite !resolveNum_spec. cbn [rbind]. fold from to.
    destruct (to <? from)%N; [done|].
    by destruct (Backend_GetLogs b _).
Qed.

(** The range of scenario 4: from 0xa to 0x5 on the sample backend. *)
Lemma C2_GetLogs_witness :
  GetLogs sampleBackend (mkLogFilter None 10%Z 5%Z [] []) = Err "incorrect range".
Proof.
  exact (proj2 (C2_GetLogs sampleBackend (mkLogFilter None 10%Z 5%Z [] []))
           (mkBlock 10%N 0%N 0%N) eq_refl eq_refl).
Defined.

Section HeaderFacts.

Variable GetHash : Transaction -> result Hash.
Variable b : EthBackend.

Lemma getBlockHeaderImpl_other (n : BlockNumber) :
  n <> LatestBlockNumber -> n <> EarliestBlockNumber -> n <> PendingBlockNumber ->
  getBlockHeaderImpl b n =
    match Backend_GetHeaderByNumber b (uint64_of_int64 n) with
    | (header, true) => Ok header
    | (_, false) => Err (errFetchHeader (uint64_of_int64 n))
    end.
Proof.
  intros Hl He Hp. unfold getBlockHeaderImpl.
  rewrite !decide_False by done.
  by destruct (Backend_GetHeaderByNumber b _) as [header []].
Qed.

Lemma getNextNonce_not_pending (a : Address) (n : BlockNumber) :
  n <> PendingBlockNumber ->
  getNextNonce b a n =
    (header <-? getBlockHeaderImpl b n;
     h <-? deref header;
     match Backend_GetAccount b (Block_StateRoot h) a with
     | (_, Some err) => Err err
     | (acc, None) => acc' <-? deref acc; Ok (Account_Nonce acc')
     end).
Proof. intros Hn. unfold getNextNonce. by rewrite decide_False. Qed.

Lemma getNextNonce_pending (a : Address) :
  getNextNonce b a PendingBlockNumber =
    match Backend_GetNonce b a with
    | (res, true) => Ok res
    | (_, false) => getNextNonce b a LatestBlockNumber
    end.
Proof.
  unfold getNextNonce. rewrite decide_True by done.
  rewrite (decide_False (P := LatestBlockNumber = PendingBlockNumber)) by done.
  by destruct (Backend_GetNonce b a) as [res []].
Qed.

Lemma rbind_Ok_r {A : Type} (r : result A) : rbind r Ok = r.
Proof. by destruct r. Qed.

End HeaderFacts.

(** C3 (as amended): the shared policy maps Latest to the backend head,
    Earliest and Pending to their "not supported" errors and any other value
    to the backend header lookup at its [uint64] value, an error when the
    backend reports not-found. getBlockByNumber, getBalance, getCode and
    getStorageAt apply the policy to their argument: they return its error
    and depend on the argument only through the resolved header.
    getTransactionCount does so for every argument but Pending, where it
    returns the pool's nonce when there is one and otherwise answers as for
    Latest. call returns a normalization error first, and applies the policy
    only once normalization has succeeded. *)
Theorem C3_header_resolution (GetHash : Transaction -> result Hash) (b : EthBackend) :
  (getBlockHeaderImpl b LatestBlockNumber = Ok (Backend_Header b)
   /\ getBlockHeaderImpl b EarliestBlockNumber = Err errEarliest
   /\ getBlockHeaderImpl b PendingBlockNumber = Err errPending
   /\ forall n : BlockNumber,
        n <> LatestBlockNumber -> n <> EarliestBlockNumber ->
        n <> PendingBlockNumber ->
        getBlockHeaderImpl b n =
          match Backend_GetHeaderByNumber b (uint64_of_int64 n) with
          | (header, true) => Ok header
          | (_, false) => Err (errFetchHeader (uint64_of_int64 n))
          end)
  /\ (forall (n : BlockNumber) (full : bool),
        GetBlockByNumber b n full = getBlockHeaderImpl b n)
  /\ (forall (a : Address) (i : Hash) (n : BlockNumber) (e : string),
        getBlockHeaderImpl b n = Err e ->
        GetBalance b a n = Err e /\ GetCode b a n = Err e
        /\ GetStorageAt b a i n = Err e)
  /\ (forall (a : Address) (i : Hash) (n n' : BlockNumber),
        getBlockHeaderImpl b n = getBlockHeaderImpl b n' ->
        GetBalance b a n = GetBalance b a n' /\ GetCode b a n = GetCode b a n'
        /\ GetStorageAt b a i n = GetStorageAt b a i n')
  /\ (forall (a : Address) (n : BlockNumber) (e : string),
        n <> PendingBlockNumber -> getBlockHeaderImpl b n = Err e ->
        GetTransactionCount b a n = Err e)
  /\ (forall (a : Address) (n n' : BlockNumber),
        n <> PendingBlockNumber -> n' <> PendingBlockNumber ->
        getBlockHeaderImpl b n = getBlockHeaderImpl b n' ->
        GetTransactionCount b a n = GetTransactionCount b a n')
  /\ (forall a : Address,
        GetTransactionCount b a PendingBlockNumber =
          match Backend_GetNonce b a with
          | (res, true) => Ok res
          | (_, false) => GetTransactionCount b a LatestBlockNumber
          end)
  /\ (forall (arg : txnArgs) (n : BlockNumber) (e : string),
        snd (decodeTxn GetHash b arg) = Err e ->
        snd (Call GetHash b arg n) = Err e)
  /\ (forall (arg : txnArgs) (n : BlockNumber) (txn : Transaction),
        snd (decodeTxn GetHash b arg) = Ok txn ->
        snd (Call GetHash b arg n) =
          (header <-? getBlockHeaderImpl b n; Backend_Call b txn header)).
Proof.
  repeat apply conj.
  - done.
  - done.
  - done.
  - apply getBlockHeaderImpl_other.
  - intros n full. unfold GetBlockByNumber. apply rbind_Ok_r.
  - intros a i n e He. unfold GetBalance, GetCode, GetStorageAt. by rewrite He.
  - intros a i n n' He. unfold GetBalance, GetCode, GetStorageAt. by rewrite He.
  - intros a n e Hn He. unfold GetTransactionCount.
    rewrite getNextNonce_not_pending by done. by rewrite He.
  - intros a n n' Hn Hn' He. unfold GetTransactionCount.
    rewrite !getNextNonce_not_pending by done. by rewrite He.
  - intros a. unfold GetTransactionCount. rewrite getNextNonce_pending.
    by destruct (Backend_GetNonce b a) as [res []].
  - intros arg n e. unfold Call.
    destruct (decodeTxn GetHash b arg) as [arg' r]. cbn [snd]. by intros ->.
  - intros arg n txn. unfold Call.
    destruct (decodeTxn GetHash b arg) as [arg' r]. cbn [snd]. intros ->.
    cbn [rbind]. destruct (getBlockHeaderImpl b n) as [h|e|]; cbn [rbind]; try done.
    apply rbind_Ok_r.
Qed.

(** On the sample backend the earliest tag is refused for a balance. *)
Lemma C3_header_resolution_witness :
  GetBalance sampleBackend addr0 EarliestBlockNumber = Err errEarliest.
Proof.
  apply (C3_header_resolution sampleGetHash sampleBackend).
  - exact 0%N.
  - reflexivity.
Defined.

(** With the pending tag getTransactionCount answers from the pool instead of
    failing, and call with no sender fails on normalization whatever the tag. *)
Lemma C3_counterexample :
  GetTransactionCount sampleBackend addr0 PendingBlockNumber = Ok 7%N
  /\ GetTransactionCount sampleBackend addr0 PendingBlockNumber <> Err errPending
  /\ snd (Call sampleGetHash sampleBackend
            (mkTxnArgs None None None None None None None None)
            EarliestBlockNumber) = Err "from is empty".
Proof. split; [reflexivity|]. split; [discriminate|reflexivity]. Qed.

Section DecodeTxnFacts.

Variable GetHash : Transaction -> result Hash.
Variable b : EthBackend.

(** Normalization never touches the sender, the target or the payload
    fields, and never overwrites a field that was present. *)
Lemma decodeTxn_frame (arg : txnArgs) :
  let arg' := fst (decodeTxn GetHash b arg) in
  From arg' = From arg /\ To arg' = To arg
  /\ Data arg' = Data arg /\ Input arg' = Input arg
  /\ (forall v, Nonce arg = Some v -> Nonce arg' = Some v)
  /\ (forall v, Value arg = Some v -> Value arg' = Some v)
  /\ (forall v, GasPrice arg = Some v -> GasPrice arg' = Some v)
  /\ (forall v, Gas arg = Some v -> Gas arg' = Some v).
Proof.
  destruct arg as [from to gas gasPrice value input data nonce].
  unfold decodeTxn. cbn [From To Gas GasPrice Value Input Data Nonce].
  destruct from as [from|]; [|cbn; by repeat split].
  destruct (bool_decide (data <> None) && bool_decide (input <> None));
    [cbn; by repeat split|].
  destruct nonce as [nonce|];
    [|destruct (getNextNonce b from LatestBlockNumber) as [nonce| |];
      cbn [rbind]; [|cbn; repeat split; (done || by intros ? [=])..]];
    cbn [From To Gas GasPrice Value Input Data Nonce];
    (destruct value as [value|]; cbn [From To Gas GasPrice Value Input Data Nonce];
     (destruct gasPrice as [gasPrice|];
      [|destruct (Backend_GetAvgGasPrice b) as [price|]; cbn [deref rbind];
        [|cbn; repeat split; (done || by intros ? [=])]];
      cbn [From To Gas GasPrice Value Input Data Nonce];
      (match goal with
       | |- context [if ?c then _ else _] =>
           destruct c; [cbn; repeat split; (done || by intros ? [=])|]
       end;
       destruct gas as [gas|]; cbn; repeat split; (done || by intros ? [=])))).
Qed.

(** After a successful normalization every absent field holds its default:
    the nonce is the one [getNextNonce] gives for the latest block. *)
Lemma decodeTxn_defaults (arg : txnArgs) (txn : Transaction) :
  snd (decodeTxn GetHash b arg) = Ok txn ->
  let arg' := fst (decodeTxn GetHash b arg) in
  (Gas arg = None -> Gas arg' = Some 1000000%N)
  /\ (Value arg = None -> Value arg' = Some [])
  /\ (GasPrice arg = None ->
      exists price, Backend_GetAvgGasPrice b = Some price
                    /\ GasPrice arg' = Some (bigBytes price))
  /\ (Nonce arg = None ->
      exists from nonce, From arg = Some from
        /\ getNextNonce b from LatestBlockNumber = Ok nonce
        /\ Nonce arg' = Some nonce).
Proof.
  destruct arg as [from to gas gasPrice value input data nonce].
  unfold decodeTxn. cbn [From To Gas GasPrice Value Input Data Nonce].
  destruct from as [from|]; [|cbn [snd]; intros Hbad; discriminate Hbad].
  destruct (bool_decide (data <> None) && bool_decide (input <> None));
    [cbn [snd]; intros Hbad; discriminate Hbad|].
  destruct nonce as [nonce|];
    [|destruct (getNextNonce b from LatestBlockNumber) as [nonce| |] eqn:Hn;
      cbn [rbind]; [|cbn [snd]; intros Hbad; discriminate Hbad..]];
    cbn [From To Gas GasPrice Value Input Data Nonce];
    (destruct value as [value|]; cbn [From To Gas GasPrice Value Input Data Nonce];
     (destruct gasPrice as [gasPrice|];
      [|destruct (Backend_GetAvgGasPrice b) as [price|]; cbn [deref rbind];
        [|cbn [snd]; intros Hbad; discriminate Hbad]];
      cbn [From To Gas GasPrice Value Input Data Nonce];
      (match goal with
       | |- context [if ?c then _ else _] => destruct c; [cbn [snd]; intros Hbad; discriminate Hbad|]
       end;
       destruct gas as [gas|]; cbn [fst snd Gas Value GasPrice Nonce From];
       intros _; repeat split; try done; eauto))).
Qed.

Lemma Call_arg (arg : txnArgs) (n : BlockNumber) :
  fst (Call GetHash b arg n) = fst (decodeTxn GetHash b arg).
Proof. unfold Call. by destruct (decodeTxn GetHash b arg). Qed.

Lemma EstimateGas_arg (arg : txnArgs) (rawNum : option BlockNumber) :
  fst (EstimateGas GetHash b arg rawNum) = fst (decodeTxn GetHash b arg).
Proof. unfold EstimateGas. by destruct (decodeTxn GetHash b arg). Qed.

End DecodeTxnFacts.

(** C10, at the input where the code departs from it: the pool holds the
    pending nonce 7 for the sender and the state nonce is 3; with the nonce
    absent, Call and EstimateGas write 3 into the caller's record, the nonce
    [getNextNonce] resolves for the latest block, and the pool is not asked. *)
Theorem C10_nonce_not_from_pool (n : BlockNumber) (rawNum : option BlockNumber) :
  Backend_GetNonce sampleBackend addr0 = (7%N, true)
  /\ getNextNonce sampleBackend addr0 PendingBlockNumber = Ok 7%N
  /\ Nonce (fst (Call sampleGetHash sampleBackend sampleArgs n)) = Some 3%N
  /\ Nonce (fst (EstimateGas sampleGetHash sampleBackend sampleArgs rawNum)) = Some 3%N.
Proof.
  rewrite Call_arg, EstimateGas_arg. repeat split; reflexivity.
Qed.

Section DispatcherFacts.

Lemma decodeArgs_Err (ts : list GoType) (elems : list JSON) (i : nat)
    (t : GoType) (j : JSON) (e : string) :
  ts !! i = Some t -> elems !! i = Some j ->
  unmarshal t (zero t) j = Err e ->
  (forall (k : nat) (t' : GoType) (j' : JSON),
     ts !! k = Some t' -> elems !! k = Some j' ->
     unmarshal t' (zero t') j' <> Panic) ->
  exists e', decodeArgs ts elems = Err e'.
Proof.
  revert elems i. induction ts as [|t0 ts IH]; intros elems i Ht Hj He Hnp.
  - discriminate Ht.
  - destruct elems as [|j0 elems]; [done|]. cbn [decodeArgs].
    destruct i as [|i].
    + injection Ht as ->. injection Hj as ->. rewrite He. by eexists.
    + destruct (unmarshal t0 (zero t0) j0) as [v|e0|] eqn:H0; cbn [rbind].
      * destruct (IH elems i Ht Hj He) as [e' ->].
        { intros k t' j' Hk Hk'. by apply (Hnp (S k)). }
        by eexists.
      * by eexists.
      * by destruct (Hnp 0 t0 j0).
Qed.

Lemma decodeArgs_accepts (ts : list GoType) (elems : list JSON) :
  (forall (i : nat) (t : GoType) (j : JSON),
     ts !! i = Some t -> elems !! i = Some j ->
     exists v, unmarshal t (zero t) j = Ok v) ->
  decodeSurplus (drop (length ts) elems) = Ok tt ->
  exists args, decodeArgs ts elems = Ok args.
Proof.
  revert elems. induction ts as [|t0 ts IH]; intros elems Hok Hs.
  - cbn [decodeArgs]. change (decodeSurplus elems = Ok tt) in Hs.
    rewrite Hs. by eexists.
  - destruct elems as [|j0 elems]; [by eexists|]. cbn [decodeArgs].
    destruct (Hok 0 t0 j0 eq_refl eq_refl) as [v ->]. cbn [rbind].
    destruct (IH elems) as [args ->]; [|done|by eexists].
    intros i t j Hi Hj. by apply (Hok (S i)).
Qed.

Lemma decodeArgs_surplus_Err (ts : list GoType) (elems : list JSON) (e : string) :
  (forall (k : nat) (t' : GoType) (j' : JSON),
     ts !! k = Some t' -> elems !! k = Some j' ->
     unmarshal t' (zero t') j' <> Panic) ->
  decodeSurplus (drop (length ts) elems) = Err e ->
  exists e', decodeArgs ts elems = Err e'.
Proof.
  revert elems. induction ts as [|t0 ts IH]; intros elems Hnp Hs.
  - cbn [decodeArgs]. change (decodeSurplus elems = Err e) in Hs.
    rewrite Hs. by eexists.
  - destruct elems as [|j0 elems]; [done|]. cbn [decodeArgs].
    destruct (unmarshal t0 (zero t0) j0) as [v|e0|] eqn:H0; cbn [rbind].
    + destruct (IH elems) as [e' ->]; [|done|by eexists].
      intros k t' j' Hk Hk'. by apply (Hnp (S k)).
    + by eexists.
    + by destruct (Hnp 0 t0 j0).
Qed.

Lemma decodeArgs_Ok_inv (ts : list GoType) (elems : list JSON) (args : argsOf ts) :
  decodeArgs ts elems = Ok args ->
  (forall (i : nat) (t : GoType) (j : JSON),
     ts !! i = Some t -> elems !! i = Some j ->
     exists v, unmarshal t (zero t) j = Ok v)
  /\ decodeSurplus (drop (length ts) elems) = Ok tt.
Proof.
  revert elems args. induction ts as [|t0 ts IH]; intros elems args.
  - cbn [decodeArgs]. destruct (decodeSurplus elems) as [[]| |] eqn:Hs; [|done..].
    intros _. by split.
  - destruct elems as [|j0 elems]; [by intros _|]. cbn [decodeArgs].
    destruct (unmarshal t0 (zero t0) j0) as [v|e0|] eqn:H0; cbn [rbind]; [|done..].
    destruct (decodeArgs ts elems) as [rest|e0|] eqn:Hr; cbn [rbind]; [|done..].
    intros _. destruct (IH _ _ Hr) as [Hall Hs]. split; [|done].
    intros [|i] t j Hi Hj.
    + injection Hi as <-. injection Hj as <-. by eexists.
    + by apply (Hall i).
Qed.

Lemma handleReq_invalid (d : Dispatcher) (req : Request) (log : list LogLine)
    (service : serviceData) (fd : funcData) (e : string) :
  getFnHandler d req = inl (service, fd) ->
  unmarshalParams (params fd) (Params req) = Err e ->
  handleReq d req log =
    (Failed (invalidArguments (Method req)),
     log ++ [LogDebugRequest (Method req) (ID req)]).
Proof. intros Hh Hu. unfold handleReq. by rewrite Hh, Hu. Qed.

Lemma handleReq_decoded (d : Dispatcher) (req : Request) (log : list LogLine)
    (service : serviceData) (fd : funcData) (inArgs : argsOf (params fd))
    (err : ErrorObject) :
  getFnHandler d req = inl (service, fd) ->
  unmarshalParams (params fd) (Params req) = Ok inArgs ->
  fst (handleReq d req log) = Failed err -> Code err = (-32603)%Z.
Proof.
  intros Hh Hu. unfold handleReq. rewrite Hh, Hu.
  destruct (out_err (fv fd inArgs)) as [e|]; [by intros [= <-]|].
  destruct (out_res (fv fd inArgs)) as [[data|e|]|]; try done.
  by intros [= <-].
Qed.

End DispatcherFacts.

(** C4: when the handler the dispatcher invoked returns a non-nil error, the
    call fails with the fixed object of code -32603 and message "internal
    error", which does not depend on the handler's error; the error text goes
    to the logger only. *)
Theorem C4_handler_error (d : Dispatcher) (req : Request) (log : list LogLine)
    (service : serviceData) (fd : funcData) (inArgs : argsOf (params fd))
    (err : string) :
  getFnHandler d req = inl (service, fd) ->
  unmarshalParams (params fd) (Params req) = Ok inArgs ->
  out_err (fv fd inArgs) = Some err ->
  handleReq d req log =
    (Failed (mkErrorObject (-32603) "internal error"),
     log ++ [LogDebugRequest (Method req) (ID req);
             LogErrorDispatch (Method req) err]).
Proof.
  intros Hh Hu He. unfold handleReq. rewrite Hh, Hu, He.
  unfold dispatcherInternalError, internalError. by rewrite <- app_assoc.
Qed.

(** The method [mock_err] of the dispatcher test. *)
Lemma C4_handler_error_witness :
  handleReq mockDispatcher (mkRequest (JNumber "1") "mock_err" (Some (JArray []))) [] =
    (Failed (mkErrorObject (-32603) "internal error"),
     [LogDebugRequest "mock_err" (JNumber "1"); LogErrorDispatch "mock_err" "err"]).
Proof.
  exact (C4_handler_error mockDispatcher
           (mkRequest (JNumber "1") "mock_err" (Some (JArray []))) []
           (mkServiceData _) (mkFuncData 1 [] _ true) tt "err"
           eq_refl eq_refl eq_refl).
Defined.

(** C5, at the input where the code departs from it: [mock_block] is
    registered with one parameter, a [BlockNumber] that is no pointer and so
    not optional ([isDyn] is false). Called with an empty params array it is
    not rejected with -32602: [json.Unmarshal] cuts the slice of slots to the
    length of the array without an error, [handleReq] compares the length
    with nothing ([numParams] and [isDyn] are not read), the handler runs on
    the zero block number and the request is answered. Called with one
    element too many it is answered as well. *)
Theorem C5_wrong_arity_accepted (log : list LogLine) :
  (exists (service : serviceData) (fd : funcData),
     getFnHandler mockDispatcher (mkRequest (JNumber "1") "mock_block" (Some (JArray [])))
       = inl (service, fd)
     /\ numParams fd = 1 /\ isDyn fd = false)
  /\ unmarshalParams [TBlockNumber] (Some (JArray [])) = Ok (0%Z, tt)
  /\ handleReq mockDispatcher
       (mkRequest (JNumber "1") "mock_block" (Some (JArray []))) log
     = (Replied (mkResponse (JNumber "1") "2.0" None),
        log ++ [LogDebugRequest "mock_block" (JNumber "1")])
  /\ handleReq mockDispatcher
       (mkRequest (JNumber "1") "mock_block"
          (Some (JArray [JString "latest"; JBool true]))) log
     = (Replied (mkResponse (JNumber "1") "2.0" None),
        log ++ [LogDebugRequest "mock_block" (JNumber "1")]).
Proof.
  split; [|repeat split; reflexivity].
  eexists _, _. split; [reflexivity|]. split; reflexivity.
Qed.

(** C6, at the input where the code departs from it: the text "0xzz" is not
    hexadecimal, [decodeToHex] reports it and [argBig] returns the error, but
    [argBytes.UnmarshalText] returns nil and leaves the slot as it was; the
    request [web3_sha3 ["0xzz"]] is therefore not rejected: the handler runs
    on the empty byte string and its digest is the reply. *)
Theorem C6_argBytes_accepts_malformed (keccak : list byte -> list byte)
    (b0 : argBytes) (log : list LogLine) :
  snd (decodeToHex "0xzz") = Some errInvalidByte
  /\ argBig_UnmarshalText 0%Z "0xzz" = Err errInvalidByte
  /\ argBytes_UnmarshalText b0 "0xzz" = Ok b0
  /\ handleReq (web3Dispatcher keccak)
       (mkRequest (JNumber "1") "web3_sha3" (Some (JArray [JString "0xzz"]))) log
     = (Replied (mkResponse (JNumber "1") "2.0"
                   (Some (quote (encodeToHex (keccak []))))),
        log ++ [LogDebugRequest "web3_sha3" (JNumber "1")]).
Proof. repeat split; reflexivity. Qed.

(** C7, at the input where the code departs from it: the largest 64-bit
    hexadecimal height is accepted and converted to [int64] unchecked, which
    gives the tag for Earliest; the next one down gives Latest, and 2^63 gives
    the most negative number. *)
Theorem C7_height_wraps_to_sentinel (b0 : BlockNumber) :
  BlockNumber_UnmarshalJSON b0 (quote "0xffffffffffffffff") = Ok EarliestBlockNumber
  /\ BlockNumber_UnmarshalJSON b0 (quote "0xfffffffffffffffe") = Ok LatestBlockNumber
  /\ BlockNumber_UnmarshalJSON b0 (quote "18446744073709551613") = Ok PendingBlockNumber
  /\ BlockNumber_UnmarshalJSON b0 (quote "0x8000000000000000")
     = Ok (- 2 ^ 63)%Z.
Proof. repeat split; reflexivity. Qed.

(** C9: polling a subscription-mode filter returns the error "filter does not
    exist" and changes nothing; a poll that succeeds was of a polling-mode
    filter, returns its accumulated buffer, and leaves that filter with an
    empty buffer and the time of the poll as its last access, the other
    filters as they were. *)
Theorem C9_GetFilterChanges (m : FilterManager) (id : string) (now : Z) :
  (forall (f : Filter) (w : nat),
     filters m !! id = Some f -> filter_ws f = Some w ->
     GetFilterChanges m id now = (m, Err errFilterDoesNotExists))
  /\ (forall (m' : FilterManager) (items : list FilterItem),
     GetFilterChanges m id now = (m', Ok items) ->
     exists f : Filter,
       filters m !! id = Some f /\ filter_ws f = None
       /\ items = filter_buffer f
       /\ filters m' !! id = Some (mkFilter (filter_kind f) None [] now)
       /\ forall id' : string, id' <> id -> filters m' !! id' = filters m !! id').
Proof.
  unfold GetFilterChanges, isWS. split.
  - intros f w Hf Hw. by rewrite Hf, Hw.
  - intros m' items. destruct (filters m !! id) as [f|] eqn:Hf; [|done].
    destruct (filter_ws f) as [w|] eqn:Hw; [done|].
    intros [= <- <-]. exists f. repeat split; try done; cbn [filters].
    + by rewrite lookup_insert_eq.
    + intros id' Hne. by rewrite lookup_insert_ne.
Qed.

(** TestFilter_Websocket: a block filter installed with a writer cannot be
    polled. *)
Lemma C9_GetFilterChanges_witness :
  GetFilterChanges (NewBlockFilter (mkFilterManager ∅ 60%Z) "f1" (Some 0) 0%Z) "f1" 1%Z
  = (NewBlockFilter (mkFilterManager ∅ 60%Z) "f1" (Some 0) 0%Z,
     Err errFilterDoesNotExists).
Proof.
  apply (proj1 (C9_GetFilterChanges
                  (NewBlockFilter (mkFilterManager ∅ 60%Z) "f1" (Some 0) 0%Z)
                  "f1" 1%Z) (mkFilter KindBlock (Some 0) [] 0%Z) 0).
  - apply lookup_insert_eq.
  - reflexivity.
Defined.

Section BlockNumberFacts.

Lemma ParseUint_loop_bound (base : N) (s : string) (n0 n : N) :
  (n0 < 2 ^ 64)%N -> ParseUint_loop base s n0 = Ok n -> (n < 2 ^ 64)%N.
Proof.
  revert n0. induction s as [|c rest IH]; intros n0 Hn0; cbn [ParseUint_loop].
  - by intros [= <-].
  - destruct (digitVal c) as [d|]; [|done].
    destruct (base <=? d)%N; [done|].
    destruct (maxUint64 / base + 1 <=? n0)%N; [done|].
    cbv zeta.
    destruct ((n0 * base + d) mod 2 ^ 64 <? n0 * base)%N; [done|].
    cbn [orb].
    destruct (maxUint64 <? (n0 * base + d) mod 2 ^ 64)%N; [done|].
    apply IH. apply N.mod_upper_bound. done.
Qed.

Lemma parseUint64orHex_bound (str : string) (n : N) :
  parseUint64orHex (Some str) = Ok n -> (n < 2 ^ 64)%N.
Proof.
  unfold parseUint64orHex, ParseUint.
  destruct (HasPrefix str "0x").
  - destruct (strFrom 2 str); [done|]. by apply ParseUint_loop_bound.
  - destruct str; [done|]. by apply ParseUint_loop_bound.
Qed.

(** The three tags, bare or as JSON strings, the test values, and the
    empty input. *)
Lemma stringToBlockNumber_tags :
  stringToBlockNumber "earliest" = Ok (-1)%Z
  /\ stringToBlockNumber "latest" = Ok (-2)%Z
  /\ stringToBlockNumber "pending" = Ok (-3)%Z
  /\ stringToBlockNumber (quote "earliest") = Ok (-1)%Z
  /\ stringToBlockNumber (quote "latest") = Ok (-2)%Z
  /\ stringToBlockNumber (quote "pending") = Ok (-3)%Z
  /\ stringToBlockNumber (quote "0x10") = Ok 16%Z
  /\ stringToBlockNumber "16" = Ok 16%Z
  /\ stringToBlockNumber "" = Err "value is empty"
  /\ stringToBlockNumber (quote "") = Err errSyntax.
Proof. repeat split; reflexivity. Qed.

(** Any other accepted input is a parsed 64-bit number converted to
    [int64]; the result is that number, and not negative, exactly when the
    number is below 2^63. *)
Lemma stringToBlockNumber_height (str : string) (num : BlockNumber) :
  stringToBlockNumber str = Ok num ->
  num = PendingBlockNumber /\ Trim str dquote = "pending"
  \/ num = LatestBlockNumber /\ Trim str dquote = "latest"
  \/ num = EarliestBlockNumber /\ Trim str dquote = "earliest"
  \/ exists n : N,
       parseUint64orHex (Some (Trim str dquote)) = Ok n
       /\ num = int64_of_uint64 n
       /\ ((n < 2 ^ 63)%N -> num = Z.of_N n /\ (0 <= num)%Z)
       /\ ((2 ^ 63 <= n)%N -> (num < 0)%Z).
Proof.
  unfold stringToBlockNumber.
  destruct (String.eqb str "") eqn:Hempty; [done|].
  destruct (String.eqb (Trim str dquote) "pending") eqn:Hp.
  { apply String.eqb_eq in Hp. intros [= <-]. by left. }
  destruct (String.eqb (Trim str dquote) "latest") eqn:Hl.
  { apply String.eqb_eq in Hl. intros [= <-]. right. by left. }
  destruct (String.eqb (Trim str dquote) "earliest") eqn:He.
  { apply String.eqb_eq in He. intros [= <-]. right. right. by left. }
  destruct (parseUint64orHex (Some (Trim str dquote))) as [n|e|] eqn:Hn;
    cbn [rbind]; [|done..].
  intros [= <-]. right. right. right. exists n.
  split; [done|]. split; [done|]. unfold int64_of_uint64.
  change (2 ^ 63)%N with 9223372036854775808%N.
  split; intros Hlt.
  - rewrite (proj2 (N.ltb_lt _ _)) by done. lia.
  - rewrite (proj2 (N.ltb_ge _ _)) by done.
    assert (Hb : (n < 2 ^ 64)%N); [|change (2 ^ 64)%Z with 18446744073709551616%Z;
      change (2 ^ 64)%N with 18446744073709551616%N in Hb; lia].
    by apply (parseUint64orHex_bound (Trim str dquote)).
Qed.

End BlockNumberFacts.

(** The sample call: only sender and target given, gas defaults to 1000000. *)
Lemma decodeTxn_defaults_witness :
  Gas (fst (decodeTxn sampleGetHash sampleBackend sampleArgs)) = Some 1000000%N.
Proof.
  refine (proj1 (decodeTxn_defaults sampleGetHash sampleBackend sampleArgs _ _) eq_refl).
  reflexivity.
Defined.

(** An accepted height below 2^63 is returned as it is. *)
Lemma stringToBlockNumber_height_witness :
  exists n : N,
    parseUint64orHex (Some (Trim (quote "0x10") dquote)) = Ok n
    /\ 16%Z = int64_of_uint64 n.
Proof.
  destruct (stringToBlockNumber_height (quote "0x10") 16%Z eq_refl)
    as [[H _]|[[H _]|[[H _]|(n & Hn & Hnum & _)]]]; try discriminate H.
  exists n. by split.
Defined.

(** ** The repository's test cases, replayed on the model *)

(** TestFilterMatch (query_test.go). *)
Example TestFilterMatch :
  Match (mkLogFilter None 0%Z 0%Z [] [[hash1]]) (mkLog 0%N [hash1]) = Ok true
  /\ Match (mkLogFilter None 0%Z 0%Z [] [[hash1]; [hash1]]) (mkLog 0%N [hash1])
     = Ok false
  /\ Match (mkLogFilter None 0%Z 0%Z [] [[]; [hash2]]) (mkLog 0%N [hash1; hash2])
     = Ok true
  /\ Match (mkLogFilter None 0%Z 0%Z [] [[hash1]; [hash2]])
       (mkLog 0%N [hash1; hash2; hash3]) = Ok true.
Proof. repeat split; reflexivity. Qed.

(** TestEth_Block_GetBlockByNumber (eth_endpoint_test.go), on the sample
    backend: the latest tag and heights in range resolve, the earliest tag, a
    negative number and a height past the head do not. *)
Example TestEth_Block_GetBlockByNumber :
  GetBlockByNumber sampleBackend LatestBlockNumber false
    = Ok (Some (mkBlock 10%N 0%N 0%N))
  /\ GetBlockByNumber sampleBackend EarliestBlockNumber false = Err errEarliest
  /\ GetBlockByNumber sampleBackend (-50)%Z false
     = Err "Error fetching block number 18446744073709551566 header"
  /\ GetBlockByNumber sampleBackend 0%Z false = Ok (Some (mkBlock 0%N 0%N 0%N))
  /\ GetBlockByNumber sampleBackend 2%Z false = Ok (Some (mkBlock 2%N 0%N 0%N))
  /\ GetBlockByNumber sampleBackend 50%Z false
     = Err "Error fetching block number 50 header".
Proof. repeat split; reflexivity. Qed.

(** TestEth_Logs_BlockHash and TestEth_Logs_BlockRange. *)
Example TestEth_Logs :
  GetLogs sampleBackend (mkLogFilter (Some hash1) 0%Z 0%Z [] [[hash2]])
    = Ok [mkLog addr1 [hash2; hash3]]
  /\ GetLogs sampleBackend (mkLogFilter (Some hash3) 0%Z 0%Z [] []) = Ok []
  /\ GetLogs sampleBackend (mkLogFilter None 10%Z 15%Z [] []) = Ok [].
Proof. repeat split; reflexivity. Qed.

(** TestDispatcher_Decoder: the block-number and optional-pointer cases. *)
Example TestDispatcher_Decoder :
  unmarshalParams [TBlockNumber] (Some (JArray [JString "earliest"]))
    = Ok (EarliestBlockNumber, tt)
  /\ unmarshalParams [TBlockNumber] (Some (JArray [JString "latest"]))
     = Ok (LatestBlockNumber, tt)
  /\ unmarshalParams [TBlockNumber] (Some (JArray [JString "0x1"])) = Ok (1%Z, tt)
  /\ unmarshalParams [Tstring; TPtr TBlockNumber] (Some (JArray [JString "a"]))
     = Ok ("a"%string, (None, tt))
  /\ unmarshalParams [Tstring; TPtr TBlockNumber]
       (Some (JArray [JString "a"; JString "latest"]))
     = Ok ("a"%string, (Some LatestBlockNumber, tt)).
Proof. repeat split; reflexivity. Qed.

(** Scenario 2 of the specification: a head at height 10 is "0xa". *)
Example argUint64_head_10 : argUint64_MarshalText 10%N = Ok "0xa"%string.
Proof. reflexivity. Qed.

(** * Further properties of the code *)

Section MatchMore.

Lemma Match_true_iff (l : LogFilter) (log : Log) :
  Match l log = Ok true <-> MatchSpec l log.
Proof. apply Match_cases. Qed.

Lemma Match_bool (l : LogFilter) (log : Log) :
  Match l log = Ok true \/ Match l log = Ok false.
Proof. destruct (Match_cases l log) as ([[] Hb] & _); auto. Qed.

Lemma Match_ext (l l' : LogFilter) (log log' : Log) :
  (MatchSpec l log <-> MatchSpec l' log') -> Match l log = Match l' log'.
Proof.
  intros Hiff.
  destruct (Match_bool l log) as [H|H], (Match_bool l' log') as [H'|H'];
    rewrite H, H'; try done.
  - apply Match_true_iff, Hiff, Match_true_iff in H. congruence.
  - apply Match_true_iff, Hiff, Match_true_iff in H'. congruence.
Qed.

End MatchMore.

(** A filter with no address and the single topic slot {h} matches exactly
    the logs whose first topic is h, whatever their address and their other
    topics. *)
Lemma Match_single_slot (l : LogFilter) (h : Hash) (log : Log) :
  Addresses l = [] -> Topics l = [[h]] ->
  (Match l log = Ok true <-> exists rest, Log_Topics log = h :: rest).
Proof.
  intros Ha Ht. rewrite Match_true_iff. unfold MatchSpec. rewrite Ha, Ht.
  split.
  - intros (_ & Hlen & Hslots).
    destruct (Hslots 0 [h] eq_refl) as [Hnil|(t & Hth & Hin)]; [done|].
    apply list_elem_of_singleton in Hin as ->.
    destruct (Log_Topics log) as [|t0 rest]; [done|].
    injection Hth as ->. by exists rest.
  - intros [rest Hrest]. rewrite Hrest. split; [by left|].
    split; [simpl; lia|].
    intros [|i] sub Hsub; [|done]. injection Hsub as <-.
    right. exists h. split; [done|]. by apply list_elem_of_singleton.
Qed.

Lemma Match_single_slot_witness :
  Match (mkLogFilter None 0%Z 0%Z [] [[hash1]]) (mkLog addr2 [hash1; hash3])
  = Ok true.
Proof.
  apply (Match_single_slot (mkLogFilter None 0%Z 0%Z [] [[hash1]]) hash1
           (mkLog addr2 [hash1; hash3]) eq_refl eq_refl).
  by exists [hash3].
Defined.

(** A log that matches still matches when further topics are appended to it:
    the filter constrains only the positions it has slots for. *)
Lemma Match_more_topics (l : LogFilter) (a : Address) (ts extra : list Hash) :
  Match l (mkLog a ts) = Ok true ->
  Match l (mkLog a (ts ++ extra)) = Ok true.
Proof.
  rewrite !Match_true_iff. unfold MatchSpec. cbn [Log_Address Log_Topics].
  intros (Haddr & Hlen & Hslots). split; [done|]. split.
  - rewrite length_app. lia.
  - intros i sub Hsub. destruct (Hslots i sub Hsub) as [->|(t & Ht & Hin)]; [by left|].
    right. exists t. split; [|done]. by apply lookup_app_l_Some.
Qed.

Lemma Match_more_topics_witness :
  Match (mkLogFilter None 0%Z 0%Z [] [[hash1]; [hash2]])
    (mkLog addr1 ([hash1; hash2] ++ [hash3])) = Ok true.
Proof.
  by apply (Match_more_topics (mkLogFilter None 0%Z 0%Z [] [[hash1]; [hash2]])
              addr1 [hash1; hash2] [hash3]).
Defined.

(** The address list and every topic slot act as sets: two filters whose
    address lists have the same elements and whose slots have, position by
    position, the same elements give the same answer on every log; order and
    repetition do not matter. *)
Lemma Match_sets (l l' : LogFilter) (log : Log) :
  (forall a : Address, a ∈ Addresses l <-> a ∈ Addresses l') ->
  Forall2 (fun sub sub' : list Hash => forall h : Hash, h ∈ sub <-> h ∈ sub')
    (Topics l) (Topics l') ->
  Match l log = Match l' log.
Proof.
  intros Ha Ht. apply Match_ext. unfold MatchSpec.
  assert (Hnil : forall (A : Type) (x y : list A),
            (forall a, a ∈ x <-> a ∈ y) -> x = [] <-> y = []).
  { intros A x y Hxy. split; intros ->.
    - destruct y as [|b y]; [done|].
      by destruct (not_elem_of_nil b (proj2 (Hxy b) (list_elem_of_here b y))).
    - destruct x as [|b x]; [done|].
      by destruct (not_elem_of_nil b (proj1 (Hxy b) (list_elem_of_here b x))). }
  rewrite (Hnil _ _ _ Ha), (Ha (Log_Address log)), (Forall2_length _ _ _ Ht).
  split; intros (H1 & H2 & H3); (split; [done|]; split; [done|]);
    intros i sub Hsub.
  - destruct (Forall2_lookup_r _ _ _ _ _ Ht Hsub) as (sub0 & Hsub0 & Hs).
    destruct (H3 i sub0 Hsub0) as [Hemp|(t & Htl & Hin)].
    + left. by apply (Hnil _ _ _ Hs).
    + right. exists t. split; [done|]. by apply Hs.
  - destruct (Forall2_lookup_l _ _ _ _ _ Ht Hsub) as (sub0 & Hsub0 & Hs).
    destruct (H3 i sub0 Hsub0) as [Hemp|(t & Htl & Hin)].
    + left. by apply (Hnil _ _ _ Hs).
    + right. exists t. split; [done|]. by apply Hs.
Qed.

Lemma Match_sets_witness :
  Match (mkLogFilter None 0%Z 0%Z [addr1; addr2] [[hash1; hash2]])
    (mkLog addr1 [hash2])
  = Match (mkLogFilter None 0%Z 0%Z [addr2; addr1; addr2] [[hash2; hash1; hash1]])
      (mkLog addr1 [hash2]).
Proof.
  apply (Match_sets (mkLogFilter None 0%Z 0%Z [addr1; addr2] [[hash1; hash2]])
           (mkLogFilter None 0%Z 0%Z [addr2; addr1; addr2] [[hash2; hash1; hash1]])).
  - intros a. cbn [Addresses]. rewrite !elem_of_cons, !elem_of_nil. tauto.
  - cbn [Topics]. constructor; [|constructor]. intros h.
    rewrite !elem_of_cons, !elem_of_nil. tauto.
Defined.

Section GetLogsMore.

Variable b : EthBackend.

(** A range whose start is one of the three tags and whose end is an
    absolute height below the head is refused: the tags, Earliest included,
    all stand for the head. A range whose two ends are tags is the single
    block at the head. *)
Lemma GetLogs_tag_range (f : LogFilter) (head : Block) :
  BlockHash f = None -> Backend_Header b = Some head ->
  (fromBlock f = EarliestBlockNumber \/ fromBlock f = PendingBlockNumber
   \/ fromBlock f = LatestBlockNumber) ->
  ((toBlock f = EarliestBlockNumber \/ toBlock f = PendingBlockNumber
    \/ toBlock f = LatestBlockNumber) ->
   GetLogs b f =
     Backend_GetLogs b (mkGetLogsInput (Block_Number head) (Block_Number head)
                          (Addresses f) (Topics f)))
  /\ (toBlock f <> EarliestBlockNumber -> toBlock f <> PendingBlockNumber ->
      toBlock f <> LatestBlockNumber ->
      (uint64_of_int64 (toBlock f) < Block_Number head)%N ->
      GetLogs b f = Err "incorrect range").
Proof.
  intros Hh Hhead Hfrom. unfold GetLogs. rewrite Hh, Hhead, !resolveNum_spec.
  cbn [rbind]. unfold resolvedBlock.
  rewrite (decide_True (P := fromBlock f = PendingBlockNumber \/ _)) by tauto.
  split.
  - intros Hto. rewrite decide_True by tauto.
    rewrite N.ltb_irrefl. by destruct (Backend_GetLogs b _).
  - intros H1 H2 H3 Hlt. rewrite decide_False by tauto.
    by rewrite (proj2 (N.ltb_lt _ _) Hlt).
Qed.

(** Whenever [GetLogs] answers a range query, the answer is the backend's
    for a range with [From <= To] and the filter's own addresses and
    topics: the backend is never asked about an inverted range. *)
Lemma GetLogs_range_ordered (f : LogFilter) (logs : list Log) :
  BlockHash f = None -> GetLogs b f = Ok logs ->
  exists from to : N,
    (from <= to)%N
    /\ Backend_GetLogs b (mkGetLogsInput from to (Addresses f) (Topics f)) = Ok logs.
Proof.
  intros Hh. unfold GetLogs. rewrite Hh.
  destruct (resolveNum (Backend_Header b) (fromBlock f)) as [from| |];
    cbn [rbind]; [|done..].
  destruct (resolveNum (Backend_Header b) (toBlock f)) as [to| |];
    cbn [rbind]; [|done..].
  destruct (to <? from)%N eqn:Hlt; [done|]. apply N.ltb_ge in Hlt.
  intros Hlogs. exists from, to. split; [done|].
  by destruct (Backend_GetLogs b _) as [x| |]; cbn [rbind] in Hlogs; simplify_eq.
Qed.

(** When the backend has no account for the address (nil account, nil
    error), [GetBalance] answers nil and [GetCode] answers empty code, both
    without error, while [GetTransactionCount] dereferences the nil account. *)
Lemma missing_account (a : Address) (n : BlockNumber) (h : Block) :
  getBlockHeaderImpl b n = Ok (Some h) ->
  Backend_GetAccount b (Block_StateRoot h) a = (None, None) ->
  GetBalance b a n = Ok None
  /\ GetCode b a n = Ok []
  /\ (n <> PendingBlockNumber -> GetTransactionCount b a n = Panic).
Proof.
  intros Hh Ha. unfold GetBalance, GetCode, GetTransactionCount.
  rewrite Hh. cbn [rbind deref]. rewrite Ha. split; [done|]. split; [done|].
  intros Hn. rewrite getNextNonce_not_pending by done.
  rewrite Hh. cbn [rbind deref]. by rewrite Ha.
Qed.

End GetLogsMore.

(** On the sample backend the head is 10: from earliest to 5 is refused. *)
Lemma GetLogs_tag_range_witness :
  GetLogs sampleBackend (mkLogFilter None EarliestBlockNumber 5%Z [] [])
  = Err "incorrect range".
Proof.
  apply (GetLogs_tag_range sampleBackend
           (mkLogFilter None EarliestBlockNumber 5%Z [] []) (mkBlock 10%N 0%N 0%N)
           eq_refl eq_refl (or_introl eq_refl)); done.
Defined.

Lemma GetLogs_range_ordered_witness :
  exists from to : N,
    (from <= to)%N
    /\ Backend_GetLogs sampleBackend (mkGetLogsInput from to [] []) = Ok [].
Proof.
  exact (GetLogs_range_ordered sampleBackend (mkLogFilter None 3%Z 7%Z [] []) []
           eq_refl eq_refl).
Defined.

(** No account is stored at [addr1] on the sample backend. *)
Lemma missing_account_witness :
  GetBalance sampleBackend addr1 LatestBlockNumber = Ok None
  /\ GetCode sampleBackend addr1 LatestBlockNumber = Ok []
  /\ (LatestBlockNumber <> PendingBlockNumber ->
      GetTransactionCount sampleBackend addr1 LatestBlockNumber = Panic).
Proof.
  exact (missing_account sampleBackend addr1 LatestBlockNumber
           (mkBlock 10%N 0%N 0%N) eq_refl eq_refl).
Defined.

Section DecodeTxnMore.

Variable GetHash : Transaction -> result Hash.
Variable b : EthBackend.


(** The transaction a successful normalization builds: sender and target as
    given, gas and nonce as given or defaulted, the value read big-endian
    from the value bytes (zero when absent), the payload [Data] when present
    and [Input] otherwise (empty when both are absent), and the hash that
    [GetHash] gives for the transaction without a hash. The gas price is not
    part of it. *)
Lemma decodeTxn_transaction (arg : txnArgs) (txn : Transaction) :
  snd (decodeTxn GetHash b arg) = Ok txn ->
  From arg = Some (Txn_From txn)
  /\ Txn_To txn = To arg
  /\ Txn_Gas txn = default 1000000%N (Gas arg)
  /\ Txn_Value txn = SetBytes (default [] (Value arg))
  /\ Txn_Input txn = default (default [] (Input arg)) (Data arg)
  /\ (forall n : N, Nonce arg = Some n -> Txn_Nonce txn = n)
  /\ (Nonce arg = None ->
      getNextNonce b (Txn_From txn) LatestBlockNumber = Ok (Txn_Nonce txn))
  /\ GetHash (mkTransaction (Txn_From txn) (Txn_To txn) (Txn_Gas txn)
                (Txn_Value txn) (Txn_Input txn) (Txn_Nonce txn) 0%N)
     = Ok (Txn_Hash txn).
Proof.
  destruct arg as [from to gas gasPrice value input data nonce].
  unfold decodeTxn. cbn [From To Gas GasPrice Value Input Data Nonce].
  destruct from as [from|]; [|done].
  destruct data as [data|], input as [input|]; cbn [bool_decide decide_rel andb];
    try done.
  all: destruct nonce as [nonce|];
    [|destruct (getNextNonce b from LatestBlockNumber) as [nonce|e0|] eqn:Hn;
      cbn [rbind]; [|done..]].
  all: cbn [From To Gas GasPrice Value Input Data Nonce].
  all: destruct value as [value|];
    cbn [From To Gas GasPrice Value Input Data Nonce].
  all: destruct gasPrice as [gasPrice|];
    [|destruct (Backend_GetAvgGasPrice b) as [price|]; cbn [deref rbind]; [|done]].
  all: cbn [From To Gas GasPrice Value Input Data Nonce].
  all: destruct to as [to|]; cbn [bool_decide decide_rel andb orb]; try done.
  all: destruct gas as [gas|];
    cbn [From To Gas GasPrice Value Input Data Nonce deref rbind snd];
    match goal with
    | |- context [GetHash ?t] => destruct (GetHash t) eqn:Hh
    end; cbn [rbind]; try done;
    intros [= <-]; cbn; repeat split; try done; by intros ? [= <-].
Qed.

End DecodeTxnMore.


Lemma decodeTxn_transaction_witness :
  Txn_Gas (mkTransaction addr0 (Some addr1) 1000000%N 0%Z [] 3%N 0%N)
  = default 1000000%N (Gas sampleArgs).
Proof.
  apply (decodeTxn_transaction sampleGetHash sampleBackend sampleArgs
           (mkTransaction addr0 (Some addr1) 1000000%N 0%Z [] 3%N 0%N) eq_refl).
Defined.

Section DispatcherMore.

Lemma splitFirst_Some (sep : ascii) (s a b : string) :
  splitFirst sep s = Some (a, b) <->
  s = String.append a (String sep b)
  /\ forall c : ascii, In c (list_ascii_of_string a) -> c <> sep.
Proof.
  revert a b. induction s as [|c rest IH]; intros a b; cbn [splitFirst].
  - split; [done|]. intros [H _]. by destruct a.
  - destruct (Ascii.eqb c sep) eqn:Hc.
    + apply Ascii.eqb_eq in Hc as ->. split.
      * intros [= <- <-]. split; [done|]. intros c [].
      * intros [Hs Hno]. destruct a as [|x a]; cbn in Hs.
        -- by injection Hs as <-.
        -- injection Hs as <- _. by destruct (Hno sep (or_introl eq_refl)).
    + apply Ascii.eqb_neq in Hc.
      destruct (splitFirst sep rest) as [[a0 b0]|] eqn:Hrest.
      * split.
        -- intros [= <- <-]. destruct (proj1 (IH a0 b0) eq_refl) as [-> Hno].
           split; [done|]. intros x [<-|Hx]; [done|]. by apply Hno.
        -- intros [Hs Hno]. destruct a as [|x a]; cbn in Hs.
           ++ injection Hs as -> _. done.
           ++ injection Hs as <- Hs.
              assert (Hsome : Some (a0, b0) = Some (a, b)).
              { apply IH. split; [done|]. intros y Hy. apply Hno. by right. }
              by injection Hsome as <- <-.
      * split; [done|]. intros [Hs Hno]. destruct a as [|x a]; cbn in Hs.
        -- injection Hs as -> _. done.
        -- injection Hs as <- Hs.
           assert (Hsome : None = Some (a, b)); [|done].
           apply IH. split; [done|]. intros y Hy. apply Hno. by right.
Qed.

Lemma getFnHandler_error (d : Dispatcher) (req : Request) (e : ErrorObject) :
  getFnHandler d req = inr e -> e = invalidMethod (Method req).
Proof.
  unfold getFnHandler.
  destruct (splitFirst _ _) as [[sn fn]|]; [|by intros [= <-]].
  destruct (serviceMap d !! sn) as [sv|]; [|by intros [= <-]].
  destruct (funcMap sv !! fn) as [fd|]; [done|by intros [= <-]].
Qed.

End DispatcherMore.

(** A method name is resolved by cutting it at its first underscore: the
    handler is found exactly when the part before it names a registered
    service and the part after it, further underscores included, names one
    of that service's functions. *)
Lemma getFnHandler_found (d : Dispatcher) (req : Request)
    (service : serviceData) (fd : funcData) :
  getFnHandler d req = inl (service, fd) <->
  exists serviceName funcName : string,
    Method req = String.append serviceName (String "_"%char funcName)
    /\ (forall c : ascii, In c (list_ascii_of_string serviceName) -> c <> "_"%char)
    /\ serviceMap d !! serviceName = Some service
    /\ funcMap service !! funcName = Some fd.
Proof.
  unfold getFnHandler. split.
  - destruct (splitFirst _ _) as [[sn fn]|] eqn:Hs; [|done].
    apply splitFirst_Some in Hs as [Hm Hno].
    destruct (serviceMap d !! sn) as [sv|] eqn:Hsv; [|done].
    destruct (funcMap sv !! fn) as [fd0|] eqn:Hfd; [|done].
    intros [= <- <-]. by exists sn, fn.
  - intros (sn & fn & Hm & Hno & Hsv & Hfd).
    rewrite (proj2 (splitFirst_Some _ _ sn fn) (conj Hm Hno)).
    by rewrite Hsv, Hfd.
Qed.

Lemma getFnHandler_found_witness :
  getFnHandler mockDispatcher (mkRequest JNull "mock_err" None)
  = inl (mkServiceData
           (<[ "block"%string :=
                 mkFuncData 2 [TBlockNumber] (fun _ => mkOutput None None) false ]>
            (<[ "blockPtr"%string :=
                 mkFuncData 3 [Tstring; TPtr TBlockNumber]
                   (fun _ => mkOutput None None) true ]>
             {[ "err"%string :=
                 mkFuncData 1 [] (fun _ => mkOutput None (Some "err"%string)) true ]})),
         mkFuncData 1 [] (fun _ => mkOutput None (Some "err"%string)) true).
Proof.
  apply getFnHandler_found. exists "mock"%string, "err"%string.
  split; [reflexivity|]. split; [|split; reflexivity].
  intros c Hc. cbn in Hc. intuition (subst; discriminate).
Defined.

(** A request whose method has no underscore, names no registered service
    or names no function of the service is refused with -32601 and a message
    that quotes the method; nothing but the request line is logged. *)
Lemma handleReq_unknown_method (d : Dispatcher) (req : Request)
    (log : list LogLine) :
  (forall (service : serviceData) (fd : funcData),
     getFnHandler d req <> inl (service, fd)) ->
  handleReq d req log =
    (Failed (mkErrorObject (-32601)
               (String.append "The method "
                  (String.append (Method req) " does not exist/is not available"))),
     log ++ [LogDebugRequest (Method req) (ID req)]).
Proof.
  intros Hno. unfold handleReq.
  destruct (getFnHandler d req) as [[service fd]|e] eqn:Hh.
  - by destruct (Hno service fd).
  - by rewrite (getFnHandler_error _ _ _ Hh).
Qed.

Lemma handleReq_unknown_method_witness :
  handleReq mockDispatcher (mkRequest JNull "mockblock" None) [] =
    (Failed (mkErrorObject (-32601)
               "The method mockblock does not exist/is not available"),
     [LogDebugRequest "mockblock" JNull]).
Proof.
  apply (handleReq_unknown_method mockDispatcher (mkRequest JNull "mockblock" None) []).
  intros service fd. discriminate.
Defined.

(** Whatever the request, the handler and the decoders do, an error the
    dispatcher returns is one of its four own objects: invalid request,
    unknown method, invalid arguments (both quoting only the method name) or
    the fixed internal error. A body that is no request writes nothing to
    the logger. For a request the logger grows by the request line and by
    nothing else, or by the request line and one error line; the error line
    with the text [err] is written exactly when the handler was found, the
    parameters decoded and either the handler returned the error [err] or it
    returned no error and a result whose marshalling fails with [err]; and
    the internal error is returned exactly when an error line is written. *)
Lemma Handle_errors_closed (d : Dispatcher) (req : option Request)
    (log : list LogLine) :
  (forall e : ErrorObject, fst (Handle d req log) = Failed e ->
     e = invalidJSONRequest
     \/ (exists r, req = Some r /\ e = invalidMethod (Method r))
     \/ (exists r, req = Some r /\ e = invalidArguments (Method r))
     \/ e = internalError)
  /\ match req with
     | None => snd (Handle d req log) = log
     | Some r =>
         (snd (Handle d req log) = log ++ [LogDebugRequest (Method r) (ID r)]
          \/ exists err : string,
               snd (Handle d req log) =
                 log ++ [LogDebugRequest (Method r) (ID r);
                         LogErrorDispatch (Method r) err])
         /\ (forall err : string,
               snd (Handle d req log) =
                 log ++ [LogDebugRequest (Method r) (ID r);
                         LogErrorDispatch (Method r) err]
               <-> exists (service : serviceData) (fd : funcData)
                          (inArgs : argsOf (params fd)),
                     getFnHandler d r = inl (service, fd)
                     /\ unmarshalParams (params fd) (Params r) = Ok inArgs
                     /\ (out_err (fv fd inArgs) = Some err
                         \/ out_err (fv fd inArgs) = None
                            /\ out_res (fv fd inArgs) = Some (Err err)))
         /\ (fst (Handle d req log) = Failed internalError
             <-> exists err : string,
                   snd (Handle d req log) =
                     log ++ [LogDebugRequest (Method r) (ID r);
                             LogErrorDispatch (Method r) err])
     end.
Proof.
  destruct req as [r|]; cbn [Handle].
  2:{ split; [intros e [= <-]; by left | done]. }
  assert (Hone : forall (a x : LogLine), log ++ [a] = log ++ [a; x] -> False).
  { intros a x H. apply app_inv_head in H. discriminate H. }
  assert (Htwo : forall (a : LogLine) (m e1 e2 : string),
            (log ++ [a]) ++ [LogErrorDispatch m e1]
            = log ++ [a; LogErrorDispatch m e2] -> e1 = e2).
  { intros a m e1 e2 H. rewrite <- app_assoc in H. apply app_inv_head in H.
    by injection H. }
  unfold handleReq.
  destruct (getFnHandler d r) as [[service fd]|e0] eqn:Hh.
  2:{ apply getFnHandler_error in Hh as ->. cbn [fst snd]. split.
      { intros e [= <-]. right. left. by exists r. }
      split; [by left|]. split.
      - intros err. split; [by intros H%Hone | by intros (? & ? & ? & [=] & _)].
      - split; [done | by intros (err & H%Hone)]. }
  destruct (unmarshalParams (params fd) (Params r)) as [inArgs|e0|] eqn:Hu;
    cbn [fst snd].
  2:{ split.
      { intros e [= <-]. right. right. left. by exists r. }
      split; [by left|]. split.
      - intros err. split; [by intros H%Hone|].
        intros (service' & fd' & inArgs' & Hh' & Hu' & _).
        injection Hh' as <- <-. rewrite Hu in Hu'. discriminate Hu'.
      - split; [done | by intros (err & H%Hone)]. }
  2:{ split; [done|]. split; [by left|]. split.
      - intros err. split; [by intros H%Hone|].
        intros (service' & fd' & inArgs' & Hh' & Hu' & _).
        injection Hh' as <- <-. rewrite Hu in Hu'. discriminate Hu'.
      - split; [done | by intros (err & H%Hone)]. }
  unfold dispatcherInternalError.
  destruct (out_err (fv fd inArgs)) as [err0|] eqn:He; cbn [fst snd].
  { split; [intros e [= <-]; by repeat right|].
    split; [right; exists err0; by rewrite <- app_assoc|]. split.
    - intros err. split.
      + intros H%Htwo. subst err0. exists service, fd, inArgs.
        split; [done|]. split; [done|]. by left.
      + intros (service' & fd' & inArgs' & Hh' & Hu' & Hcase).
        injection Hh' as <- <-. rewrite Hu in Hu'. injection Hu' as <-.
        rewrite He in Hcase. destruct Hcase as [[= ->]|[[=] _]].
        by rewrite <- app_assoc.
    - split; [|done]. intros _. exists err0. by rewrite <- app_assoc. }
  destruct (out_res (fv fd inArgs)) as [[data|err0|]|] eqn:Hr; cbn [fst snd].
  2:{ split; [intros e [= <-]; by repeat right|].
      split; [right; exists err0; by rewrite <- app_assoc|]. split.
      - intros err. split.
        + intros H%Htwo. subst err0. exists service, fd, inArgs.
          split; [done|]. split; [done|]. by right.
        + intros (service' & fd' & inArgs' & Hh' & Hu' & Hcase).
          injection Hh' as <- <-. rewrite Hu in Hu'. injection Hu' as <-.
          rewrite He, Hr in Hcase. destruct Hcase as [[=]|[_ [= ->]]].
          by rewrite <- app_assoc.
      - split; [|done]. intros _. exists err0. by rewrite <- app_assoc. }
  all: split; [done|]; split; [by left|]; split;
    [|split; [done | by intros (err & H%Hone)]].
  all: intros err; split; [by intros H%Hone|].
  all: intros (service' & fd' & inArgs' & Hh' & Hu' & Hcase).
  all: injection Hh' as <- <-; rewrite Hu in Hu'; injection Hu' as <-.
  all: rewrite He, Hr in Hcase; by destruct Hcase as [[=]|[_ [=]]].
Qed.

(** When the parameters decode and the handler returns a nil error and a
    result that marshals (or a nil result), the reply carries the request's
    id, the version "2.0" and the marshalled result (none for nil), and only
    the request line is logged. *)
Lemma handleReq_success (d : Dispatcher) (req : Request) (log : list LogLine)
    (service : serviceData) (fd : funcData) (inArgs : argsOf (params fd))
    (data : option string) :
  getFnHandler d req = inl (service, fd) ->
  unmarshalParams (params fd) (Params req) = Ok inArgs ->
  out_err (fv fd inArgs) = None ->
  out_res (fv fd inArgs) = option_map Ok data ->
  handleReq d req log =
    (Replied (mkResponse (ID req) "2.0" data),
     log ++ [LogDebugRequest (Method req) (ID req)]).
Proof.
  intros Hh Hu He Hr. unfold handleReq. rewrite Hh, Hu, He, Hr.
  by destruct data.
Qed.

(** web3_sha3 on well-formed input: the digest of the decoded bytes. *)
Lemma handleReq_success_witness :
  handleReq (web3Dispatcher (fun x => x))
    (mkRequest (JNumber "7") "web3_sha3" (Some (JArray [JString "0x0102"]))) []
  = (Replied (mkResponse (JNumber "7") "2.0" (Some (quote "0x0102"))),
     [LogDebugRequest "web3_sha3" (JNumber "7")]).
Proof.
  exact (handleReq_success (web3Dispatcher (fun x => x))
           (mkRequest (JNumber "7") "web3_sha3" (Some (JArray [JString "0x0102"]))) []
           (mkServiceData _) (mkFuncData 2 [TargBytes] _ false)
           ([Byte.x01; Byte.x02], tt) (Some (quote "0x0102"))
           eq_refl eq_refl eq_refl eq_refl).
Defined.

(** A request for a registered method is refused with -32602 and the
    message "invalid arguments to <method>", nothing but the request line
    being logged, when its params are not a JSON text, or are a JSON value
    that is neither an array nor null, or are an array in which an element
    at the position of a parameter does not decode into the parameter's
    type, or in which an element beyond the parameters holds a number out of
    the float64 range. *)
Lemma invalid_params_rejected (d : Dispatcher) (req : Request)
    (log : list LogLine) (service : serviceData) (fd : funcData) :
  getFnHandler d req = inl (service, fd) ->
  (Params req = None
   \/ (exists j, Params req = Some j /\ j <> JNull
                 /\ forall elems, j <> JArray elems)
   \/ (exists elems : list JSON,
         Params req = Some (JArray elems)
         /\ (forall (k : nat) (t' : GoType) (j' : JSON),
               params fd !! k = Some t' -> elems !! k = Some j' ->
               unmarshal t' (zero t') j' <> Panic)
         /\ ((exists (i : nat) (t : GoType) (j : JSON) (e : string),
                params fd !! i = Some t /\ elems !! i = Some j
                /\ unmarshal t (zero t) j = Err e)
             \/ exists e : string,
                  decodeSurplus (drop (length (params fd)) elems) = Err e))) ->
  handleReq d req log =
    (Failed (mkErrorObject (-32602)
               (String.append "invalid arguments to " (Method req))),
     log ++ [LogDebugRequest (Method req) (ID req)]).
Proof.
  intros Hh [Hnone|[(j & Hj & Hnull & Harr)|(elems & Hp & Hnp & Hbad)]].
  - apply (handleReq_invalid _ _ _ _ _ errSyntaxJSON Hh). by rewrite Hnone.
  - apply (handleReq_invalid _ _ _ _ _ errUnmarshalType Hh).
    rewrite Hj. destruct j; try done. by destruct (Harr elems).
  - destruct Hbad as [(i & t & j & e & Ht & Hj & He)|[e He]].
    + destruct (decodeArgs_Err _ _ _ _ _ _ Ht Hj He Hnp) as [e' He'].
      apply (handleReq_invalid _ _ _ _ _ e' Hh). by rewrite Hp.
    + destruct (decodeArgs_surplus_Err _ _ _ Hnp He) as [e' He'].
      apply (handleReq_invalid _ _ _ _ _ e' Hh). by rewrite Hp.
Qed.

(** An element that is not a block number is rejected for [mock_block]. *)
Lemma invalid_params_rejected_witness :
  handleReq mockDispatcher
    (mkRequest (JNumber "1") "mock_block" (Some (JArray [JString "0xzz"]))) [] =
    (Failed (mkErrorObject (-32602) "invalid arguments to mock_block"),
     [LogDebugRequest "mock_block" (JNumber "1")]).
Proof.
  refine (invalid_params_rejected mockDispatcher
            (mkRequest (JNumber "1") "mock_block" (Some (JArray [JString "0xzz"]))) []
            (mkServiceData _) (mkFuncData 2 [TBlockNumber] _ false) eq_refl _).
  right. right. exists [JString "0xzz"]. split; [reflexivity|]. split.
  - intros [|[|k]] t' j' Ht Hj; try discriminate Ht.
    injection Ht as <-. injection Hj as <-. discriminate.
  - left. exists 0, TBlockNumber, (JString "0xzz"), errSyntax.
    repeat split; reflexivity.
Defined.

(** The length of the params array is compared with nothing. When every
    element at the position of a parameter decodes into the parameter's type
    and the elements beyond the parameters hold no number out of the float64
    range, the parameters decode, whatever the length of the array, and the
    only error the request can end in is the internal error; and the
    parameters decode in no other case. *)
Lemma params_decode_whatever_length (d : Dispatcher) (req : Request)
    (log : list LogLine) (service : serviceData) (fd : funcData)
    (elems : list JSON) :
  getFnHandler d req = inl (service, fd) ->
  Params req = Some (JArray elems) ->
  ((forall (i : nat) (t : GoType) (j : JSON),
      params fd !! i = Some t -> elems !! i = Some j ->
      exists v, unmarshal t (zero t) j = Ok v)
   /\ decodeSurplus (drop (length (params fd)) elems) = Ok tt
   <-> exists inArgs, unmarshalParams (params fd) (Params req) = Ok inArgs)
  /\ ((exists inArgs, unmarshalParams (params fd) (Params req) = Ok inArgs) ->
      forall err : ErrorObject,
        fst (handleReq d req log) = Failed err -> err = internalError).
Proof.
  intros Hh Hp. split.
  - rewrite Hp. cbn [unmarshalParams]. split.
    + intros [Hok Hs]. by apply decodeArgs_accepts.
    + intros [inArgs Hd]. by apply decodeArgs_Ok_inv in Hd.
  - intros [inArgs Hu] err. unfold handleReq. rewrite Hh, Hu.
    unfold dispatcherInternalError.
    destruct (out_err (fv fd inArgs)) as [e|]; [by intros [= <-]|].
    destruct (out_res (fv fd inArgs)) as [[data|e|]|]; try done.
    by intros [= <-].
Qed.

(** [mock_blockPtr] takes a string and a [*BlockNumber] and is called with
    the string alone, as the dispatcher test does. *)
Lemma params_decode_whatever_length_witness :
  ((forall (i : nat) (t : GoType) (j : JSON),
      [Tstring; TPtr TBlockNumber] !! i = Some t -> [JString "a"] !! i = Some j ->
      exists v, unmarshal t (zero t) j = Ok v)
   /\ decodeSurplus (drop 2 [JString "a"]) = Ok tt
   <-> exists inArgs,
         unmarshalParams [Tstring; TPtr TBlockNumber] (Some (JArray [JString "a"]))
         = Ok inArgs)
  /\ ((exists inArgs,
         unmarshalParams [Tstring; TPtr TBlockNumber] (Some (JArray [JString "a"]))
         = Ok inArgs) ->
      forall err : ErrorObject,
        fst (handleReq mockDispatcher
               (mkRequest (JNumber "1") "mock_blockPtr" (Some (JArray [JString "a"])))
               []) = Failed err -> err = internalError).
Proof.
  exact (params_decode_whatever_length mockDispatcher
           (mkRequest (JNumber "1") "mock_blockPtr" (Some (JArray [JString "a"]))) []
           (mkServiceData _)
           (mkFuncData 3 [Tstring; TPtr TBlockNumber] _ true)
           [JString "a"] eq_refl eq_refl).
Defined.

(** A number beyond the float64 range among the surplus elements: the request
    is refused although the one parameter decodes. *)
Example surplus_out_of_range :
  floatRangeError "1e999" = true
  /\ floatRangeError "1e308" = false
  /\ fst (handleReq mockDispatcher
            (mkRequest (JNumber "1") "mock_block"
               (Some (JArray [JString "latest"; JNumber "1e999"]))) [])
     = Failed (invalidArguments "mock_block")
  /\ fst (handleReq mockDispatcher
            (mkRequest (JNumber "1") "mock_block"
               (Some (JArray [JString "latest";
                              JArray [JObject [("a"%string, JNumber "1e999")]]]))) [])
     = Failed (invalidArguments "mock_block").
Proof. repeat split; vm_compute; reflexivity. Qed.

(** A block tag written with an escape sequence: [BlockNumber.UnmarshalJSON]
    receives the text as written and does not know the tag, where a text
    decoder receives the decoded string. *)
Example escaped_string :
  unmarshal TBlockNumber 0%Z (JString "latest") = Ok LatestBlockNumber
  /\ unmarshal TBlockNumber 0%Z (JEscaped (String backslash "u006catest") "latest")
     = Err errSyntax
  /\ unmarshal TBlockNumber 0%Z (JString (String dquote "latest")) = Err errSyntax
  /\ unmarshal Tstring EmptyString (JEscaped (String backslash "u006catest") "latest")
     = Ok "latest"%string
  /\ unmarshal TargUint64 0%N (JEscaped (String backslash "u0030x10") "0x10")
     = Ok 16%N.
Proof. repeat split; vm_compute; reflexivity. Qed.

Section CodecMore.

Lemma DecodeString_invalid (s : string) :
  String.length s mod 2 = 0 ->
  forall n, hexValue s n = None -> DecodeString s = ([], Some errInvalidByte)
    \/ exists bs, DecodeString s = (bs, Some errInvalidByte).
Proof.
  induction s as [|c|a b s IH] using string_pair_ind; intros Hlen n.
  - done.
  - discriminate Hlen.
  - cbn [String.length] in Hlen. rewrite mod2_SS in Hlen.
    cbn [hexValue DecodeString].
    destruct (fromHexChar a) as [da|]; [|by left].
    destruct (fromHexChar b) as [db|]; [|by left].
    intros Hv. right.
    destruct (IH Hlen _ Hv) as [->|[bs ->]]; by eexists.
Qed.

Lemma padded_even (s : string) :
  String.length
    (if Nat.eqb (String.length s mod 2) 0 then s else String "0"%char s) mod 2 = 0.
Proof.
  destruct (Nat.eqb (String.length s mod 2) 0) eqn:Hpar.
  - by apply Nat.eqb_eq in Hpar.
  - apply Nat.eqb_neq in Hpar. cbn [String.length].
    pose proof (Nat.mod_upper_bound (String.length s) 2).
    replace (S (String.length s)) with (String.length s + 1) by lia.
    rewrite Nat.Div0.add_mod.
    destruct (String.length s mod 2) as [|[|k]]; [done|reflexivity|lia].
Qed.

Lemma padded_hexValue (s : string) :
  hexValue (if Nat.eqb (String.length s mod 2) 0 then s else String "0"%char s) 0
  = hexValue s 0.
Proof. by destruct (Nat.eqb (String.length s mod 2) 0). Qed.

Lemma argBig_decode_cases (a : argBig) (s : string) :
  (forall v : N, hexValue s 0 = Some v ->
     argBig_UnmarshalText a (String.append "0x" s) = Ok (Z.of_N v))
  /\ (hexValue s 0 = None ->
      argBig_UnmarshalText a (String.append "0x" s) = Err errInvalidByte).
Proof.
  unfold argBig_UnmarshalText, decodeToHex. rewrite TrimPrefix_0x.
  pose proof (padded_even s) as Heven. pose proof (padded_hexValue s) as Hval.
  set (p := if Nat.eqb (String.length s mod 2) 0 then s else String "0"%char s) in *.
  split.
  - intros v Hv. rewrite <- Hval in Hv.
    destruct (DecodeString_hexValue p Heven _ _ Hv) as (bs & -> & Hfold).
    unfold SetBytes. by rewrite Hfold.
  - intros Hv. rewrite <- Hval in Hv.
    by destruct (DecodeString_invalid p Heven _ Hv) as [->|[bs ->]].
Qed.

End CodecMore.

(** What [argBig] decoding accepts: after "0x", any string of hexadecimal
    digits, of odd or even length, in either letter case, with or without
    leading zeros and the empty string included, decodes to the number the
    digits spell; a string with any other character is refused with the
    invalid-byte error. *)
Lemma argBig_decode (a : argBig) (s : string) :
  (forall v : N, hexValue s 0 = Some v ->
     argBig_UnmarshalText a (String.append "0x" s) = Ok (Z.of_N v))
  /\ (hexValue s 0 = None ->
      argBig_UnmarshalText a (String.append "0x" s) = Err errInvalidByte).
Proof. apply argBig_decode_cases. Qed.

Lemma argBig_decode_witness :
  argBig_UnmarshalText 0%Z (String.append "0x" "fFf") = Ok (Z.of_N 4095)
  /\ argBig_UnmarshalText 0%Z (String.append "0x" "1g") = Err errInvalidByte.
Proof.
  split.
  - by apply (argBig_decode 0%Z "fFf").
  - by apply (argBig_decode 0%Z "1g").
Defined.

(** A negative [argBig] does not survive the round trip: its text carries a
    minus sign after "0x", which [UnmarshalText] refuses. *)
Lemma argBig_negative_rejected (v a0 : argBig) :
  (v < 0)%Z ->
  rbind (argBig_MarshalText v) (argBig_UnmarshalText a0) = Err errInvalidByte.
Proof.
  intros Hv. unfold argBig_MarshalText, rbind, bigText16.
  rewrite (proj2 (Z.ltb_lt v 0)) by done.
  apply argBig_decode_cases. reflexivity.
Qed.

Lemma argBig_negative_rejected_witness :
  rbind (argBig_MarshalText (-255)%Z) (argBig_UnmarshalText 0%Z)
  = Err errInvalidByte.
Proof. by apply (argBig_negative_rejected (-255)%Z 0%Z). Defined.

(** Every value [argUint64] decoding accepts fits in 64 bits, and
    marshalling it gives a text that decodes to the same value: decoding
    after re-encoding is the identity on what the decoder returns. *)
Lemma argUint64_decode_canonical (u u' : argUint64) (s : string) (n : N) :
  argUint64_UnmarshalText u s = Ok n ->
  (n < 2 ^ 64)%N
  /\ rbind (argUint64_MarshalText n) (argUint64_UnmarshalText u') = Ok n.
Proof.
  unfold argUint64_UnmarshalText at 1. unfold ParseUint.
  destruct (TrimPrefix s "0x") as [|c rest]; [done|].
  destruct (ParseUint_loop 16 (String c rest) 0) as [m| |] eqn:Hp; [|done..].
  cbn [rbind]. intros [= <-].
  assert (Hb : (m < 2 ^ 64)%N) by (by apply (ParseUint_loop_bound _ _ 0%N m) in Hp).
  split; [done|]. by apply argUint64_roundtrip.
Qed.

Lemma argUint64_decode_canonical_witness :
  (255 < 2 ^ 64)%N
  /\ rbind (argUint64_MarshalText 255%N) (argUint64_UnmarshalText 9%N) = Ok 255%N.
Proof. exact (argUint64_decode_canonical 0%N 9%N "0x00FF" 255%N eq_refl). Defined.

(** The text of an [argBytes] is "0x" followed by exactly two digits per
    byte: the digit string is never of odd length, so [encodeToHex] never
    pads. *)
Lemma argBytes_text_length (b : argBytes) :
  argBytes_MarshalText b = Ok (String.append "0x" (EncodeToString b))
  /\ String.length (EncodeToString b) = 2 * length b.
Proof.
  split.
  - unfold argBytes_MarshalText, encodeToHex. by rewrite EncodeToString_even.
  - induction b as [|v b IH]; [done|].
    cbn [EncodeToString String.length length]. rewrite IH. lia.
Qed.

Section BlockNumberMore.

Lemma hexdigit_not_quote (d : N) : hexdigit d <> dquote.
Proof.
  unfold hexdigit. destruct (N.to_nat d) as [|k]; [discriminate|].
  do 15 (destruct k as [|k]; [discriminate|]). discriminate.
Qed.

Lemma formatBits_no_quote (fuel : nat) (u : N) (acc : string) :
  (forall c, In c (list_ascii_of_string acc) -> c <> dquote) ->
  forall c, In c (list_ascii_of_string (formatBits fuel u acc)) -> c <> dquote.
Proof.
  revert u acc. induction fuel as [|fuel IH]; intros u acc Hacc; cbn [formatBits].
  - intros c [<-|Hc]; [apply hexdigit_not_quote | by apply Hacc].
  - destruct (16 <=? u)%N.
    + apply IH. intros c [<-|Hc]; [apply hexdigit_not_quote | by apply Hacc].
    + intros c [<-|Hc]; [apply hexdigit_not_quote | by apply Hacc].
Qed.

Lemma append_nil_l (s : string) : String.append EmptyString s = s.
Proof. reflexivity. Qed.

Lemma append_cons_l (x : ascii) (s t : string) :
  String.append (String x s) t = String x (String.append s t).
Proof. reflexivity. Qed.

Lemma trimRight_end (c : ascii) (s : string) :
  (forall x, In x (list_ascii_of_string s) -> x <> c) ->
  trimRight c (String.append s (String c EmptyString)) = s.
Proof.
  induction s as [|x s IH]; intros Hno.
  - rewrite append_nil_l. cbn [trimRight]. by rewrite Ascii.eqb_refl.
  - rewrite append_cons_l. cbn [trimRight].
    rewrite IH by (intros y Hy; apply Hno; by right).
    destruct s; [|done].
    rewrite (proj2 (Ascii.eqb_neq x c)); [done|]. apply Hno. by left.
Qed.

Lemma trimRight_none (c : ascii) (s : string) :
  (forall x, In x (list_ascii_of_string s) -> x <> c) -> trimRight c s = s.
Proof.
  induction s as [|x s IH]; intros Hno; cbn [trimRight]; [done|].
  rewrite IH by (intros y Hy; apply Hno; by right).
  destruct s; [|done].
  rewrite (proj2 (Ascii.eqb_neq x c)); [done|]. apply Hno. by left.
Qed.

Lemma Trim_quote (s : string) :
  (forall x, In x (list_ascii_of_string s) -> x <> dquote) ->
  Trim (quote s) dquote = s.
Proof.
  intros Hno. unfold Trim, quote.
  change (trimLeft dquote (String dquote ?t)) with (trimLeft dquote t).
  destruct s as [|x s].
  - reflexivity.
  - rewrite append_cons_l. cbn [trimLeft].
    rewrite (proj2 (Ascii.eqb_neq x dquote)) by (apply Hno; by left).
    rewrite <- append_cons_l.
    by apply (trimRight_end dquote (String x s)).
Qed.

End BlockNumberMore.

(** The text [argUint64] marshals for a height below 2^63 (the form in which
    eth_blockNumber answers) is accepted as a [BlockNumber], as a JSON string
    and bare, and decodes to that height. *)
Lemma BlockNumber_accepts_argUint64 (n : N) (b0 : BlockNumber) (text : string) :
  (n < 2 ^ 63)%N -> argUint64_MarshalText n = Ok text ->
  BlockNumber_UnmarshalJSON b0 (quote text) = Ok (Z.of_N n)
  /\ stringToBlockNumber text = Ok (Z.of_N n).
Proof.
  intros Hn [= <-].
  assert (Hno : forall x, In x (list_ascii_of_string (String.append "0x" (formatHex n)))
                          -> x <> dquote).
  { intros x [<-|[<-|Hx]]; [discriminate..|].
    revert x Hx. apply formatBits_no_quote. intros c []. }
  assert (Hparse : ParseUint (formatHex n) 16 = Ok n).
  { unfold ParseUint. destruct (formatHex n) eqn:Hs;
      [by apply formatBits_nonempty in Hs|]. rewrite <- Hs.
    apply ParseUint_loop_hexValue; [apply formatHex_hexValue|].
    change (2 ^ 63)%N with 9223372036854775808%N in Hn.
    change (2 ^ 64)%N with 18446744073709551616%N. lia. }
  assert (Hcore : forall str, Trim str dquote = String.append "0x" (formatHex n) ->
            String.eqb str "" = false -> stringToBlockNumber str = Ok (Z.of_N n)).
  { intros str Htrim Hne. unfold stringToBlockNumber. rewrite Hne, Htrim.
    change (String.append "0x" (formatHex n))
      with (String "0" (String "x" (formatHex n))).
    cbn [String.eqb Ascii.eqb Bool.eqb andb].
    cbn [parseUint64orHex HasPrefix stripPrefix Ascii.eqb Bool.eqb andb strFrom].
    rewrite Hparse. cbn [rbind]. unfold int64_of_uint64.
    by rewrite (proj2 (N.ltb_lt _ _) Hn). }
  split.
  - unfold BlockNumber_UnmarshalJSON. rewrite Hcore; [done| |done].
    by apply Trim_quote.
  - apply Hcore; [|done].
    unfold Trim.
    change (String.append "0x" (formatHex n))
      with (String "0" (String "x" (formatHex n))) in *.
    cbn [trimLeft Ascii.eqb Bool.eqb andb].
    by apply (trimRight_none dquote (String "0" (String "x" (formatHex n)))).
Qed.

Lemma BlockNumber_accepts_argUint64_witness :
  BlockNumber_UnmarshalJSON 0%Z (quote "0xa") = Ok (Z.of_N 10)
  /\ stringToBlockNumber "0xa" = Ok (Z.of_N 10).
Proof. exact (BlockNumber_accepts_argUint64 10%N 0%Z "0xa" eq_refl eq_refl). Defined.

Section FilterDecodeFacts.

Variable Hash_UnmarshalText : string -> result Hash.
Variable Address_UnmarshalText : string -> result Address.

Lemma andThen_ok (m1 m2 : step) (l l' : LogFilter) :
  andThen m1 m2 l = (l', Ok tt) <->
  exists l1, m1 l = (l1, Ok tt) /\ m2 l1 = (l', Ok tt).
Proof.
  unfold andThen. destruct (m1 l) as [l1 [[]|e|]]; split.
  - intros H. by exists l1.
  - by intros (l2 & [= <-] & H).
  - done.
  - by intros (l2 & [=] & _).
  - done.
  - by intros (l2 & [=] & _).
Qed.

Lemma collect_spec {A B : Type} (f : A -> result B) (xs : list A)
    (acc res : list B) :
  collect f xs acc = Ok res <->
  exists ys, res = acc ++ ys /\ Forall2 (fun x y => f x = Ok y) xs ys.
Proof.
  revert acc. induction xs as [|x xs IH]; intros acc; cbn [collect].
  - split.
    + intros [= <-]. exists []. by rewrite app_nil_r.
    + intros (ys & -> & Hys). apply Forall2_nil_inv_l in Hys as ->.
      by rewrite app_nil_r.
  - destruct (f x) as [y|e|] eqn:Hx; cbn [rbind].
    + rewrite IH. split.
      * intros (ys & -> & Hys). exists (y :: ys).
        split; [by rewrite <- app_assoc|]. by constructor.
      * intros (ys & -> & Hys).
        apply Forall2_cons_inv_l in Hys as (y' & ys' & Hy & Hys & ->).
        assert (y' = y) as -> by congruence.
        exists ys'. split; [by rewrite <- app_assoc|done].
    + split; [done|]. intros (ys & _ & Hys).
      apply Forall2_cons_inv_l in Hys as (y' & ys' & Hy & _). congruence.
    + split; [done|]. intros (ys & _ & Hys).
      apply Forall2_cons_inv_l in Hys as (y' & ys' & Hy & _). congruence.
Qed.

Lemma addTopicSet_ok (set : list string) (l l' : LogFilter) :
  addTopicSet Hash_UnmarshalText set l = (l', Ok tt) <->
  exists slot,
    Forall2 (fun s h => Hash_UnmarshalText s = Ok h) set slot
    /\ l' = mkLogFilter (BlockHash l) (fromBlock l) (toBlock l) (Addresses l)
              (Topics l ++ [slot]).
Proof.
  unfold addTopicSet. split.
  - destruct (collect Hash_UnmarshalText set []) as [res|e|] eqn:Hc; [|done..].
    apply collect_spec in Hc as (ys & -> & Hys).
    intros [= <-]. by exists ys.
  - intros (slot & Hslot & ->).
    assert (Hc : collect Hash_UnmarshalText set [] = Ok ([] ++ slot))
      by (apply collect_spec; by exists slot).
    by rewrite Hc.
Qed.

Lemma addAddress_ok (raw : string) (l l' : LogFilter) :
  addAddress Address_UnmarshalText raw l = (l', Ok tt) <->
  exists addr,
    Address_UnmarshalText raw = Ok addr
    /\ l' = mkLogFilter (BlockHash l) (fromBlock l) (toBlock l)
              (Addresses l ++ [addr]) (Topics l).
Proof.
  unfold addAddress. destruct (Address_UnmarshalText raw) as [addr|e|]; split.
  - intros [= <-]. by exists addr.
  - by intros (a & [= <-] & ->).
  - done.
  - by intros (a & [=] & _).
  - done.
  - by intros (a & [=] & _).
Qed.

Lemma setFromBlock_ok (str : string) (l l' : LogFilter) :
  setFromBlock str l = (l', Ok tt) <->
  exists n, blockOf str n
    /\ l' = mkLogFilter (BlockHash l) n (toBlock l) (Addresses l) (Topics l).
Proof.
  unfold setFromBlock, blockOf. destruct (String.eqb str "") eqn:He.
  - apply String.eqb_eq in He as ->. split.
    + intros [= <-]. exists LatestBlockNumber. split; [by left|done].
    + by intros (n & [[_ ->]|[? _]] & ->).
  - apply String.eqb_neq in He.
    destruct (stringToBlockNumber str) as [n|e|]; split.
    + intros [= <-]. exists n. split; [by right|done].
    + by intros (m & [[? _]|[_ [= <-]]] & ->).
    + done.
    + by intros (m & [[? _]|[_ [=]]] & _).
    + done.
    + by intros (m & [[? _]|[_ [=]]] & _).
Qed.

Lemma setToBlock_ok (str : string) (l l' : LogFilter) :
  setToBlock str l = (l', Ok tt) <->
  exists n, blockOf str n
    /\ l' = mkLogFilter (BlockHash l) (fromBlock l) n (Addresses l) (Topics l).
Proof.
  unfold setToBlock, blockOf. destruct (String.eqb str "") eqn:He.
  - apply String.eqb_eq in He as ->. split.
    + intros [= <-]. exists LatestBlockNumber. split; [by left|done].
    + by intros (n & [[_ ->]|[? _]] & ->).
  - apply String.eqb_neq in He.
    destruct (stringToBlockNumber str) as [n|e|]; split.
    + intros [= <-]. exists n. split; [by right|done].
    + by intros (m & [[? _]|[_ [= <-]]] & ->).
    + done.
    + by intros (m & [[? _]|[_ [=]]] & _).
    + done.
    + by intros (m & [[? _]|[_ [=]]] & _).
Qed.

Lemma forEach_address_ok (raw : list JSON) (l l' : LogFilter) :
  forEach (fun addr =>
             match addr with
             | JString item => addAddress Address_UnmarshalText item
             | _ => fail_ errAddressExpected
             end) raw l = (l', Ok tt) <->
  exists addrs,
    Forall2 (fun j a => exists s, j = JString s /\ Address_UnmarshalText s = Ok a)
      raw addrs
    /\ l' = mkLogFilter (BlockHash l) (fromBlock l) (toBlock l)
              (Addresses l ++ addrs) (Topics l).
Proof.
  revert l. induction raw as [|j raw IH]; intros l; cbn [forEach].
  - unfold done_. split.
    + intros [= <-]. exists []. split; [constructor|].
      rewrite app_nil_r. by destruct l.
    + intros (addrs & Ha & ->). apply Forall2_nil_inv_l in Ha as ->.
      rewrite app_nil_r. by destruct l.
  - rewrite andThen_ok. split.
    + intros (l1 & H1 & H2). apply IH in H2 as (addrs & Ha & ->).
      destruct j; try done. apply addAddress_ok in H1 as (a & Ha1 & ->).
      exists (a :: addrs). split; [constructor; eauto|].
      cbn [BlockHash fromBlock toBlock Addresses Topics]. by rewrite <- app_assoc.
    + intros (addrs & Ha & ->).
      apply Forall2_cons_inv_l in Ha as (a & addrs' & (s & -> & Hs) & Ha & ->).
      eexists. split; [apply addAddress_ok; eauto|].
      apply IH. exists addrs'. split; [done|].
      cbn [BlockHash fromBlock toBlock Addresses Topics]. by rewrite <- app_assoc.
Qed.

Lemma Forall2_through {A B C : Type} (R : A -> B -> Prop) (S : B -> C -> Prop)
    (xs : list A) (zs : list C) :
  Forall2 (fun x z => exists y, R x y /\ S y z) xs zs <->
  exists ys, Forall2 R xs ys /\ Forall2 S ys zs.
Proof.
  split.
  - induction 1 as [|x z xs zs (y & Hr & Hs) _ (ys & Hrs & Hss)].
    + exists []. by split.
    + exists (y :: ys). split; by constructor.
  - intros (ys & Hr & Hs). revert zs Hs.
    induction Hr as [|x y xs ys Hxy _ IH]; intros zs Hs.
    + apply Forall2_nil_inv_l in Hs as ->. constructor.
    + apply Forall2_cons_inv_l in Hs as (z & zs' & Hz & Hs & ->).
      constructor; eauto.
Qed.

Lemma strings_of (e : string) (raw : list JSON) (strs : list string) :
  collect (fun i => match i with JString item => Ok item | _ => Err e end) raw []
  = Ok strs <->
  Forall2 (fun j s => j = JString s) raw strs.
Proof.
  rewrite collect_spec. cbn [app]. split.
  - intros (ys & -> & H). eapply Forall2_impl; [exact H|].
    intros j s Hj. destruct j; by simplify_eq.
  - intros H. exists strs. split; [done|]. eapply Forall2_impl; [exact H|].
    by intros j s ->.
Qed.

Lemma decodeAddress_ok (address : JSON) (l l' : LogFilter) :
  decodeAddress Address_UnmarshalText address l = (l', Ok tt) <->
  exists astrs addrs,
    addressStrings address = Some astrs
    /\ Forall2 (fun s a => Address_UnmarshalText s = Ok a) astrs addrs
    /\ l' = mkLogFilter (BlockHash l) (fromBlock l) (toBlock l)
              (Addresses l ++ addrs) (Topics l).
Proof.
  destruct address as [|v|lit|raw|raw|members|lit content];
    cbn [decodeAddress addressStrings];
    try (split; [done | by intros (? & ? & [=] & _)]).
  - unfold done_. split.
    + intros [= <-]. exists [], []. split; [done|]. split; [constructor|].
      rewrite app_nil_r. by destruct l.
    + intros (astrs & addrs & [= <-] & Ha & ->).
      apply Forall2_nil_inv_l in Ha as ->. rewrite app_nil_r. by destruct l.
  - rewrite addAddress_ok. split.
    + intros (a & Ha & ->). exists [raw], [a]. split; [done|].
      split; [by constructor|done].
    + intros (astrs & addrs & [= <-] & Ha & ->).
      apply Forall2_cons_inv_l in Ha as (a & rest & Ha & Hrest & ->).
      apply Forall2_nil_inv_l in Hrest as ->. by exists a.
  - rewrite forEach_address_ok. split.
    + intros (addrs & Ha & ->). apply Forall2_through in Ha as (strs & Hs & Ha).
      exists strs, addrs. split; [|done].
      by rewrite (proj2 (strings_of _ _ _) Hs).
    + intros (astrs & addrs & Hstr & Ha & ->). exists addrs. split; [|done].
      apply Forall2_through. exists astrs. split; [|done].
      apply (strings_of errAddressExpected).
      by destruct (collect _ raw []); simplify_eq.
Qed.

Lemma decodeTopic_ok (item : JSON) (l l' : LogFilter) :
  decodeTopic Hash_UnmarshalText item l = (l', Ok tt) <->
  exists strs slot,
    topicStrings item = Some strs
    /\ Forall2 (fun s h => Hash_UnmarshalText s = Ok h) strs slot
    /\ l' = mkLogFilter (BlockHash l) (fromBlock l) (toBlock l) (Addresses l)
              (Topics l ++ [slot]).
Proof.
  destruct item as [|v|lit|raw|raw|members|lit content];
    cbn [decodeTopic topicStrings];
    try (split; [done | by intros (? & ? & [=] & _)]).
  - rewrite addTopicSet_ok. split.
    + intros (slot & Hs & ->). by exists [], slot.
    + intros (strs & slot & [= <-] & Hs & ->). by exists slot.
  - rewrite addTopicSet_ok. split.
    + intros (slot & Hs & ->). by exists [raw], slot.
    + intros (strs & slot & [= <-] & Hs & ->). by exists slot.
  - destruct (collect _ raw []) as [res|e|].
    + rewrite addTopicSet_ok. split.
      * intros (slot & Hs & ->). by exists res, slot.
      * intros (strs & slot & [= <-] & Hs & ->). by exists slot.
    + split; [done | by intros (? & ? & [=] & _)].
    + split; [done | by intros (? & ? & [=] & _)].
Qed.

Lemma forEach_topic_ok (items : list JSON) (l l' : LogFilter) :
  forEach (decodeTopic Hash_UnmarshalText) items l = (l', Ok tt) <->
  exists slots,
    Forall2 (fun item slot =>
               exists strs, topicStrings item = Some strs
                 /\ Forall2 (fun s h => Hash_UnmarshalText s = Ok h) strs slot)
      items slots
    /\ l' = mkLogFilter (BlockHash l) (fromBlock l) (toBlock l) (Addresses l)
              (Topics l ++ slots).
Proof.
  revert l. induction items as [|item items IH]; intros l; cbn [forEach].
  - unfold done_. split.
    + intros [= <-]. exists []. split; [constructor|].
      rewrite app_nil_r. by destruct l.
    + intros (slots & Hs & ->). apply Forall2_nil_inv_l in Hs as ->.
      rewrite app_nil_r. by destruct l.
  - rewrite andThen_ok. split.
    + intros (l1 & H1 & H2). apply IH in H2 as (slots & Hs & ->).
      apply decodeTopic_ok in H1 as (strs & slot & Hstr & Hslot & ->).
      exists (slot :: slots). split; [constructor; eauto|].
      cbn [BlockHash fromBlock toBlock Addresses Topics]. by rewrite <- app_assoc.
    + intros (slots & Hs & ->).
      apply Forall2_cons_inv_l in Hs as (slot & slots' & (strs & Hstr & Hslot) & Hs & ->).
      eexists. split; [apply decodeTopic_ok; eauto|].
      apply IH. exists slots'. split; [done|].
      cbn [BlockHash fromBlock toBlock Addresses Topics]. by rewrite <- app_assoc.
Qed.

End FilterDecodeFacts.

Lemma LogFilter_decode_cases (Hash_UnmarshalText : string -> result Hash)
    (Address_UnmarshalText : string -> result Address)
    (obj : filterObj) (l l' : LogFilter) :
  LogFilter_UnmarshalJSON Hash_UnmarshalText Address_UnmarshalText (Ok obj) l
    = (l', Ok tt) <->
  exists (from to : BlockNumber) (astrs : list string) (addrs : list Address)
         (slots : list (list Hash)),
    blockOf (obj_FromBlock obj) from /\ blockOf (obj_ToBlock obj) to
    /\ addressStrings (obj_Address obj) = Some astrs
    /\ Forall2 (fun s a => Address_UnmarshalText s = Ok a) astrs addrs
    /\ Forall2 (fun item slot =>
                  exists strs, topicStrings item = Some strs
                    /\ Forall2 (fun s h => Hash_UnmarshalText s = Ok h) strs slot)
         (obj_Topics obj) slots
    /\ l' = mkLogFilter (obj_BlockHash obj) from to (Addresses l ++ addrs)
              (Topics l ++ slots).
Proof.
  unfold LogFilter_UnmarshalJSON. rewrite andThen_ok. split.
  - intros (l0 & [= <-] & H).
    apply andThen_ok in H as (l1 & H1 & H).
    apply setFromBlock_ok in H1 as (from & Hfrom & ->).
    apply andThen_ok in H as (l2 & H2 & H).
    apply setToBlock_ok in H2 as (to & Hto & ->).
    apply andThen_ok in H as (l3 & H3 & H).
    apply decodeAddress_ok in H3 as (astrs & addrs & Hstr & Ha & ->).
    apply forEach_topic_ok in H as (slots & Hs & ->).
    by exists from, to, astrs, addrs, slots.
  - intros (from & to & astrs & addrs & slots & Hfrom & Hto & Hstr & Ha & Hs & ->).
    eexists. split; [reflexivity|].
    apply andThen_ok. eexists. split; [apply setFromBlock_ok; eauto|].
    apply andThen_ok. eexists. split; [apply setToBlock_ok; eauto|].
    apply andThen_ok. eexists. split; [apply decodeAddress_ok; eauto|].
    apply forEach_topic_ok. by exists slots.
Qed.

(** When [LogFilter.UnmarshalJSON] succeeds, and only then: the block hash
    is the decoded one, each range end is Latest for an absent member and
    the parsed block number otherwise, the addresses of the member (none, one
    string, or an array of strings) are appended in order to those the
    receiver held, and one topic slot per element of the topics array is
    appended to the receiver's slots, empty for [null], a singleton for a
    string, the hashes of the strings for an array. *)
Lemma LogFilter_decode_ok (Hash_UnmarshalText : string -> result Hash)
    (Address_UnmarshalText : string -> result Address)
    (obj : filterObj) (l l' : LogFilter) :
  LogFilter_UnmarshalJSON Hash_UnmarshalText Address_UnmarshalText (Ok obj) l
    = (l', Ok tt) <->
  exists (from to : BlockNumber) (astrs : list string) (addrs : list Address)
         (slots : list (list Hash)),
    blockOf (obj_FromBlock obj) from /\ blockOf (obj_ToBlock obj) to
    /\ addressStrings (obj_Address obj) = Some astrs
    /\ Forall2 (fun s a => Address_UnmarshalText s = Ok a) astrs addrs
    /\ Forall2 (fun item slot =>
                  exists strs, topicStrings item = Some strs
                    /\ Forall2 (fun s h => Hash_UnmarshalText s = Ok h) strs slot)
         (obj_Topics obj) slots
    /\ l' = mkLogFilter (obj_BlockHash obj) from to (Addresses l ++ addrs)
              (Topics l ++ slots).
Proof. apply LogFilter_decode_cases. Qed.

(** A filter decoded into a fresh [LogFilter] from an object that names
    neither addresses nor topics matches every log. *)
Lemma LogFilter_decode_unconstrained (Hash_UnmarshalText : string -> result Hash)
    (Address_UnmarshalText : string -> result Address)
    (obj : filterObj) (l' : LogFilter) (log : Log) :
  obj_Address obj = JNull -> obj_Topics obj = [] ->
  LogFilter_UnmarshalJSON Hash_UnmarshalText Address_UnmarshalText (Ok obj)
    emptyLogFilter = (l', Ok tt) ->
  Match l' log = Ok true.
Proof.
  intros Ha Ht Hdec.
  apply LogFilter_decode_cases in Hdec
    as (from & to & astrs & addrs & slots & _ & _ & Hstr & Haddrs & Hs & ->).
  rewrite Ha in Hstr. injection Hstr as <-.
  apply Forall2_nil_inv_l in Haddrs as ->.
  rewrite Ht in Hs. apply Forall2_nil_inv_l in Hs as ->.
  apply Match_cases. unfold MatchSpec. cbn. split; [by left|].
  split; [lia|]. by intros i sub.
Qed.

(** A [null] element in the topics array is a wildcard at its position: the
    filter decoded from topics [[null; ..; null]] alone matches exactly the
    logs with at least that many topics. *)
Lemma LogFilter_decode_null_topics (Hash_UnmarshalText : string -> result Hash)
    (Address_UnmarshalText : string -> result Address)
    (obj : filterObj) (l' : LogFilter) (log : Log) :
  obj_Address obj = JNull ->
  Forall (fun item => item = JNull) (obj_Topics obj) ->
  LogFilter_UnmarshalJSON Hash_UnmarshalText Address_UnmarshalText (Ok obj)
    emptyLogFilter = (l', Ok tt) ->
  (Match l' log = Ok true <-> length (obj_Topics obj) <= length (Log_Topics log)).
Proof.
  intros Ha Hnull Hdec.
  apply LogFilter_decode_cases in Hdec
    as (from & to & astrs & addrs & slots & _ & _ & Hstr & Haddrs & Hs & ->).
  rewrite Ha in Hstr. injection Hstr as <-.
  apply Forall2_nil_inv_l in Haddrs as ->.
  assert (Hlen : length slots = length (obj_Topics obj))
    by (symmetry; by eapply Forall2_length).
  assert (Hempty : forall i sub, slots !! i = Some sub -> sub = []).
  { intros i sub Hi.
    destruct (Forall2_lookup_r _ _ _ _ _ Hs Hi) as (item & Hitem & strs & Hstrs & Hf).
    rewrite (proj1 (Forall_lookup _ _) Hnull i item Hitem) in Hstrs.
    injection Hstrs as <-. by apply Forall2_nil_inv_l in Hf. }
  rewrite (proj1 (proj2 (Match_cases _ log))). unfold MatchSpec. cbn. rewrite Hlen.
  split.
  - by intros (_ & Hle & _).
  - intros Hle. split; [by left|]. split; [done|].
    intros i sub Hi. left. by apply (Hempty i).
Qed.

(** The object {} of TestFilterDecode, decoded into a fresh filter. *)
Lemma LogFilter_decode_unconstrained_witness :
  Match (mkLogFilter None LatestBlockNumber LatestBlockNumber [] [])
    (mkLog addr1 [hash1]) = Ok true.
Proof.
  exact (LogFilter_decode_unconstrained (fun _ => Ok 0%N) (fun _ => Ok 0%N)
           (mkFilterObj None "" "" JNull [])
           (mkLogFilter None LatestBlockNumber LatestBlockNumber [] [])
           (mkLog addr1 [hash1]) eq_refl eq_refl eq_refl).
Defined.

Lemma LogFilter_decode_null_topics_witness :
  Match (mkLogFilter None LatestBlockNumber LatestBlockNumber [] [[]; []])
    (mkLog addr1 [hash1]) = Ok true
  <-> length [JNull; JNull] <= length [hash1].
Proof.
  exact (LogFilter_decode_null_topics (fun _ => Ok 0%N) (fun _ => Ok 0%N)
           (mkFilterObj None "" "" JNull [JNull; JNull])
           (mkLogFilter None LatestBlockNumber LatestBlockNumber [] [[]; []])
           (mkLog addr1 [hash1]) eq_refl
           (Forall_cons_2 _ _ _ eq_refl (Forall_cons_2 _ _ _ eq_refl (Forall_nil_2 _)))
           eq_refl).
Defined.

(** TestFilterDecode (query_test.go): the cases that do not depend on how
    the library parses an address or a hash. *)
Example TestFilterDecode (H : string -> result Hash) (A : string -> result Address) :
  LogFilter_UnmarshalJSON H A (Ok (mkFilterObj None "" "" JNull [])) emptyLogFilter
    = (mkLogFilter None LatestBlockNumber LatestBlockNumber [] [], Ok tt)
  /\ LogFilter_UnmarshalJSON H A
       (Ok (mkFilterObj None "pending" "earliest" JNull [])) emptyLogFilter
     = (mkLogFilter None PendingBlockNumber EarliestBlockNumber [] [], Ok tt)
  /\ LogFilter_UnmarshalJSON H A
       (Ok (mkFilterObj (Some hash1) "" "" JNull [])) emptyLogFilter
     = (mkLogFilter (Some hash1) LatestBlockNumber LatestBlockNumber [] [], Ok tt)
  /\ LogFilter_UnmarshalJSON H A
       (Ok (mkFilterObj None "" "" (JNumber "1") [])) emptyLogFilter
     = (mkLogFilter None LatestBlockNumber LatestBlockNumber [] [],
        Err errDecodeAddress).
Proof. repeat split; reflexivity. Qed.

(** A negative block number that is not a tag is looked up at its 64-bit
    unsigned value, 2^64 + n, which is at least 2^63: on a backend that has
    no header at such heights it is refused like any unknown height. *)
Lemma negative_block_number (b : EthBackend) (n : BlockNumber) (full : bool) :
  (- 2 ^ 63 <= n < -3)%Z ->
  (forall k : N, (2 ^ 63 <= k)%N -> Backend_GetHeaderByNumber b k = (None, false)) ->
  uint64_of_int64 n = Z.to_N (2 ^ 64 + n)
  /\ GetBlockByNumber b n full = Err (errFetchHeader (Z.to_N (2 ^ 64 + n))).
Proof.
  intros Hn Hb.
  change (2 ^ 63)%Z with 9223372036854775808%Z in Hn.
  assert (Hu : uint64_of_int64 n = Z.to_N (2 ^ 64 + n)).
  { unfold uint64_of_int64. f_equal.
    change (2 ^ 64)%Z with 18446744073709551616%Z.
    rewrite <- (Z.mod_add n 1 18446744073709551616) by lia.
    rewrite Z.mod_small; lia. }
  split; [done|]. unfold GetBlockByNumber.
  rewrite getBlockHeaderImpl_other by
    (unfold LatestBlockNumber, EarliestBlockNumber, PendingBlockNumber; lia).
  rewrite Hu, Hb; [done|].
  change (2 ^ 63)%N with 9223372036854775808%N.
  change (2 ^ 64)%Z with 18446744073709551616%Z. lia.
Qed.

(** The case "block number is negative" of TestEth_Block_GetBlockByNumber. *)
Lemma negative_block_number_witness :
  uint64_of_int64 (-50) = Z.to_N (2 ^ 64 + -50)
  /\ GetBlockByNumber sampleBackend (-50)%Z false
     = Err (errFetchHeader (Z.to_N (2 ^ 64 + -50))).
Proof.
  apply (negative_block_number sampleBackend (-50)%Z false).
  - split; [discriminate | reflexivity].
  - intros k Hk. cbn [sampleBackend Backend_GetHeaderByNumber].
    rewrite (proj2 (N.leb_gt k 10)); [done|].
    change (2 ^ 63)%N with 9223372036854775808%N in Hk. lia.
Defined.
